(** * Proportional Approval Voting: a shallow embedding of
    [axvoting.cardinal.approval.proportional]

    The Python module is embedded as follows.
    - Python [int] is [Z]; [float] is idealised as an exact rational in
      canonical form ([Qc]), so that [==] on scores is Leibniz equality and
      [+] is associative.  Rounding is out of that model; what depends on
      rounding, on the overflow of a conversion or on the compensated [sum]
      of the interpreter is stated on a second embedding of the
      apportionment methods over binary64 floats ([dv64], [v64]).
    - An [int] argument of a C function is converted to [Py_ssize_t]
      ([as_ssize_t]), and [itertools.combinations] allocates an array of
      [r] indexes when it is created ([PyMem_New_ssize_t], CPython on a
      64-bit platform); [get_result_ssize] is [get_result] with that
      conversion of [committee_size] and that allocation.  It is the one
      allocation whose size is an argument of the program; whether the
      allocator grants it is left open ([Allocator]).
    - [Candidate = str] is [string]; a ballot ([set[Candidate]]) is a
      [gset string].
    - Exceptions are values of [exn]; a call that may raise returns a
      [result].  Methods of [Election] run in the monad [M], which threads
      the object's fields and keeps the mutations made before a raise.
    - [dict] objects that are iterated are association lists in insertion
      order; the [defaultdict] that is only looked up is a [gmap]. *)

From Stdlib Require Import Floats.
From Stdlib Require Import QArith Qcanon Factorial.
From stdpp Require Import base numbers list sorting strings gmap.

Local Open Scope Z_scope.

(** ** Exceptions and results *)

Inductive exn : Set :=
  | ValueError
  | KeyError
  | IndexError
  | TypeError
  | RuntimeError
  | OverflowError
  | MemoryError.

Inductive result (A : Type) : Type :=
  | Ok (a : A)
  | Err (e : exn).
Arguments Ok {A} a.
Arguments Err {A} e.

Global Instance result_ret : MRet result := λ A a, Ok a.
Global Instance result_bind : MBind result := λ A B k r,
  match r with
  | Ok a => k a
  | Err e => Err e
  end.

(** [range(a, b)] *)
Definition range (a b : Z) : list Z :=
  map (λ i : nat, a + Z.of_nat i) (seq 0 (Z.to_nat (b - a))).

(** ** Apportionment methods *)

(** The abstract base class: a subclass supplies [dv]. *)
Class ApportionmentMethod := { dv : Z → result Qc }.

(** [sum(f(i) for i in indexes)]: the generator is consumed left to right
    from the start value 0, and the first exception raised by [f] escapes. *)
Definition sum_gen (f : Z → result Qc) (indexes : list Z) : result Qc :=
  foldl (λ acc i, a ← acc; x ← f i; Ok (a + x)%Qc) (Ok 0%Qc) indexes.

(** [ApportionmentMethod.v], inherited by every subclass. *)
Definition v `{ApportionmentMethod} (index : Z) : result Qc :=
  if index <? 0 then Err ValueError
  else if index =? 0 then Ok 0%Qc
  else sum_gen dv (range 1 (index + 1)).

Definition float_of_int (z : Z) : Qc := Qc_of_Z z.

(** The literals [1.2] and [1.4]. *)
Definition float_1_2 : Qc := Q2Qc (12 # 10).
Definition float_1_4 : Qc := Q2Qc (14 # 10).

Definition SainteLagueApportionmentMethod : ApportionmentMethod :=
  {| dv index :=
       if index <? 0 then Err ValueError
       else if index =? 0 then Ok 0%Qc
       else Ok (1 / float_of_int (-1 + 2 * index))%Qc |}.

Definition SainteLague12ApportionmentMethod : ApportionmentMethod :=
  {| dv index :=
       if index <? 0 then Err ValueError
       else if index =? 0 then Ok 0%Qc
       else if index =? 1 then Ok (1 / float_1_2)%Qc
       else Ok (1 / float_of_int (-1 + 2 * index))%Qc |}.

Definition SainteLague14ApportionmentMethod : ApportionmentMethod :=
  {| dv index :=
       if index <? 0 then Err ValueError
       else if index =? 0 then Ok 0%Qc
       else if index =? 1 then Ok (1 / float_1_4)%Qc
       else Ok (1 / float_of_int (-1 + 2 * index))%Qc |}.

(** The dictionary literal of [from_name]. *)
Definition from_name_table : list (string * ApportionmentMethod) :=
  [ ("sainte_lague"%string, SainteLagueApportionmentMethod);
    ("sainte_lague_1_2"%string, SainteLague12ApportionmentMethod);
    ("sainte_lague_1_4"%string, SainteLague14ApportionmentMethod) ].

(** Subscription of a [dict] given as an association list. *)
Fixpoint dict_getitem {K V} `{EqDecision K} (d : list (K * V)) (k : K)
  : result V :=
  match d with
  | [] => Err KeyError
  | (k', x) :: d' => if decide (k' = k) then Ok x else dict_getitem d' k
  end.

Definition from_name (name : string) : result ApportionmentMethod :=
  dict_getitem from_name_table name.

(** ** Apportionment methods over binary64 *)

(** [float(z)] for an [int] [z], as in [1. / z]: the nearest double, ties to
    even; [OverflowError] when that is not finite. *)
Definition float64_of_int (z : Z) : result float :=
  let f := SF2Prim (binary_normalize prec emax z 0 false) in
  if is_infinity f then Err OverflowError else Ok f.

(** The doubles that the literals [1.2] and [1.4] denote. *)
Definition float64_1_2 : float := 0x1.3333333333333p+0%float.
Definition float64_1_4 : float := 0x1.6666666666666p+0%float.

Definition SainteLague_dv64 (index : Z) : result float :=
  if index <? 0 then Err ValueError
  else if index =? 0 then Ok 0%float
  else x ← float64_of_int (-1 + 2 * index); Ok (1 / x)%float.

Definition SainteLague12_dv64 (index : Z) : result float :=
  if index <? 0 then Err ValueError
  else if index =? 0 then Ok 0%float
  else if index =? 1 then Ok (1 / float64_1_2)%float
  else x ← float64_of_int (-1 + 2 * index); Ok (1 / x)%float.

Definition SainteLague14_dv64 (index : Z) : result float :=
  if index <? 0 then Err ValueError
  else if index =? 0 then Ok 0%float
  else if index =? 1 then Ok (1 / float64_1_4)%float
  else x ← float64_of_int (-1 + 2 * index); Ok (1 / x)%float.

(** The state of the built-in [sum] (CPython 3.12 and later): the [int]
    start value 0 until the first item, then the running double
    [f_result] and the compensation [c] of Neumaier's summation. *)
Inductive sum_state : Set :=
  | sum_start
  | sum_floats (f_result c : float).

(** One [float] item. *)
Definition sum_step (st : sum_state) (x : float) : sum_state :=
  match st with
  | sum_start => sum_floats (0 + x)%float 0%float
  | sum_floats f_result c =>
      let t := (f_result + x)%float in
      if (abs x <=? abs f_result)%float
      then sum_floats t (c + ((f_result - t) + x))%float
      else sum_floats t (c + ((x - t) + f_result))%float
  end.

(** The end of the iterator: the compensation is added when it is finite
    and not zero. *)
Definition sum_finish (st : sum_state) : float :=
  match st with
  | sum_start => 0%float
  | sum_floats f_result c =>
      if (negb (is_zero c) && is_finite c)%bool then (f_result + c)%float
      else f_result
  end.

(** The state of [sum(dv(i) for i in indexes)] when the generator is
    exhausted; an exception of [dv] escapes. *)
Definition sum64_state (dv : Z → result float) (indexes : list Z)
  : result sum_state :=
  foldl (λ acc i, st ← acc; x ← dv i; Ok (sum_step st x)) (Ok sum_start) indexes.

(** [ApportionmentMethod.v] over binary64, for the [dv] of a subclass. *)
Definition v64 (dv : Z → result float) (index : Z) : result float :=
  if index <? 0 then Err ValueError
  else if index =? 0 then Ok 0%float
  else st ← sum64_state dv (range 1 (index + 1)); Ok (sum_finish st).

(** [from_name], with the classes given by their [dv] over binary64. *)
Definition from_name_table64 : list (string * (Z → result float)) :=
  [ ("sainte_lague"%string, SainteLague_dv64);
    ("sainte_lague_1_2"%string, SainteLague12_dv64);
    ("sainte_lague_1_4"%string, SainteLague14_dv64) ].

Definition from_name64 (name : string) : result (Z → result float) :=
  dict_getitem from_name_table64 name.

(** Two doubles that are equal or next to each other. *)
Definition within_one_ulp (a b : float) : bool :=
  ((a =? b)%float || (next_up a =? b)%float || (next_down a =? b)%float)%bool.

(** [v(index)] against [v(index - 1) + dv(index)], for [index >= 1]. *)
Definition v64_step_within_one_ulp (dv : Z → result float) (index : Z) : bool :=
  match v64 dv (index - 1), dv index, v64 dv index with
  | Ok a, Ok b, Ok c => within_one_ulp (a + b)%float c
  | _, _, _ => false
  end.

(** ** Python built-ins used by [Election] *)

(** Order of [str]: code-point order, which on UTF-8 bytes is the
    lexicographic order of [String.compare]. *)
Definition str_le (a b : string) : Prop := String.leb a b = true.

Global Instance str_le_dec : RelDecision str_le.
Proof. intros a b. unfold str_le. apply _. Defined.

(** [sorted(xs)] on strings. *)
Definition sorted (xs : list string) : list string := merge_sort str_le xs.

(** Order of tuples of strings: the first differing position decides, and a
    proper prefix is smaller. *)
Fixpoint tuple_compare (s t : list string) : comparison :=
  match s, t with
  | [], [] => Eq
  | [], _ :: _ => Lt
  | _ :: _, [] => Gt
  | a :: s', b :: t' =>
      match String.compare a b with
      | Eq => tuple_compare s' t'
      | c => c
      end
  end.

Definition tuple_le (s t : list string) : Prop := tuple_compare s t ≠ Gt.

Global Instance tuple_le_dec : RelDecision tuple_le.
Proof. intros s t. unfold tuple_le. apply _. Defined.

(** [itertools.combinations(pool, r)] for [r >= 0], in the order in which
    the iterator yields. *)
Fixpoint combinations_nat {A} (pool : list A) (r : nat) : list (list A) :=
  match r, pool with
  | O, _ => [[]]
  | S _, [] => []
  | S r', x :: pool' =>
      (cons x <$> combinations_nat pool' r') ++ combinations_nat pool' r
  end.

(** [itertools.combinations(pool, r)]: a negative [r] raises [ValueError]
    when the iterator is created. *)
Definition combinations {A} (pool : list A) (r : Z) : result (list (list A)) :=
  if r <? 0 then Err ValueError else Ok (combinations_nat pool (Z.to_nat r)).

(** The conversion of an [int] argument to the C type [Py_ssize_t] (64
    bits): outside its range the call raises [OverflowError]. *)
Definition PY_SSIZE_T_MAX : Z := 2 ^ 63 - 1.

Definition as_ssize_t (r : Z) : result Z :=
  if ((r <? - PY_SSIZE_T_MAX - 1) || (PY_SSIZE_T_MAX <? r))%bool
  then Err OverflowError else Ok r.

(** Whether the allocator grants a request of that many bytes. *)
Class Allocator := {
  malloc_succeeds : Z → bool
}.

(** [PyMem_New(Py_ssize_t, n)]: refused when [n] elements of 8 bytes exceed
    [PY_SSIZE_T_MAX] bytes, otherwise passed on to the allocator; the caller
    raises [MemoryError] on a refusal. *)
Definition PyMem_New_ssize_t `{Allocator} (n : Z) : result () :=
  if PY_SSIZE_T_MAX / 8 <? n then Err MemoryError
  else if malloc_succeeds (n * 8) then Ok () else Err MemoryError.

(** [itertools.combinations(pool, r)] as the interpreter creates it: the
    conversion of [r], the test of its sign, the array of [r] indexes, and
    then the iterator. *)
Definition itertools_combinations `{Allocator} {A} (pool : list A) (r : Z)
  : result (list (list A)) :=
  r' ← as_ssize_t r;
  if r' <? 0 then Err ValueError else
  _ ← PyMem_New_ssize_t r';
  combinations pool r'.

(** An allocator that grants the requests up to [limit] bytes. *)
Definition allocator_up_to (limit : Z) : Allocator :=
  {| malloc_succeeds bytes := bytes <=? limit |}.

(** The order in which a [set] is iterated depends on the hashes of its
    elements; all that is known is that every element comes once. *)
Class SetIteration := {
  set_iter : gset string → list string;
  set_iter_perm : ∀ s, set_iter s ≡ₚ elements s
}.

(** [len(s)] *)
Definition len (s : gset string) : Z := Z.of_nat (size s).

(** *** Insertion-ordered [dict] *)

Definition dict (K V : Type) : Type := list (K * V).

Definition dict_contains {K V} `{EqDecision K} (d : dict K V) (k : K) : bool :=
  bool_decide (k ∈ d.*1).

(** [d[k] = x] *)
Fixpoint dict_setitem {K V} `{EqDecision K} (d : dict K V) (k : K) (x : V)
  : dict K V :=
  match d with
  | [] => [(k, x)]
  | (k', y) :: d' =>
      if decide (k' = k) then (k', x) :: d' else (k', y) :: dict_setitem d' k x
  end.

(** [del d[k]] *)
Fixpoint dict_delitem {K V} `{EqDecision K} (d : dict K V) (k : K)
  : result (dict K V) :=
  match d with
  | [] => Err KeyError
  | (k', y) :: d' =>
      if decide (k' = k) then Ok d'
      else d'' ← dict_delitem d' k; Ok ((k', y) :: d'')
  end.

(** [d.setdefault(k, []).append(x)] *)
Fixpoint dict_setdefault_append {K V} `{EqDecision K}
    (d : dict K (list V)) (k : K) (x : V) : dict K (list V) :=
  match d with
  | [] => [(k, [x])]
  | (k', l) :: d' =>
      if decide (k' = k) then (k', l ++ [x]) :: d'
      else (k', l) :: dict_setdefault_append d' k x
  end.

(** [l[-1]] *)
Definition list_last {A} (l : list A) : result A :=
  match last l with
  | Some x => Ok x
  | None => Err IndexError
  end.

(** ** Election *)

(** [Candidate = str] *)
Abbreviation Candidate := string (only parsing).

(** The objects that [remove_ballot] is called with: [Ballot | int]. *)
Inductive ballot_or_int : Type :=
  | a_ballot (b : gset Candidate)
  | an_int (i : Z).

(** What may stand as the second argument of [isinstance]. *)
Inductive classinfo : Set :=
  | class_set
  | class_int
  | type_alias (value : classinfo).

(** [type Ballot = set[Candidate]]: the statement binds [Ballot] to a
    [typing.TypeAliasType] object, which is not a class. *)
Definition Ballot : classinfo := type_alias class_set.

(** [isinstance(obj, cls)] raises [TypeError] when [cls] is not a class. *)
Definition isinstance (obj : ballot_or_int) (cls : classinfo) : result bool :=
  match cls, obj with
  | class_set, a_ballot _ => Ok true
  | class_set, an_int _ => Ok false
  | class_int, a_ballot _ => Ok false
  | class_int, an_int _ => Ok true
  | type_alias _, _ => Err TypeError
  end.

(** Objects used as keys of [ballot_to_indexes]. *)
Inductive index_key : Type :=
  | key_tuple (t : list Candidate)
  | key_set (s : gset Candidate).

(** A [set] has no hash. *)
Definition hashable (k : index_key) : bool :=
  match k with
  | key_tuple _ => true
  | key_set _ => false
  end.

Definition DataFrame : Type := list (list Candidate * Qc).

Record Election := mkElection {
  (* Config *)
  committee_size : Z;
  apportionment_method : ApportionmentMethod;
  choices : option (gset Candidate);
  (* State *)
  ballots : dict Z (gset Candidate);
  ballot_to_indexes : gmap (list Candidate) (list Z);
  counter : Z
}.

(** The dataclass constructor followed by [__post_init__]. *)
Definition new_Election (committee_size : Z) (method : ApportionmentMethod)
    (choices : option (gset Candidate)) : Election :=
  mkElection committee_size method choices [] ∅ 0.

Definition set_ballots (bs : dict Z (gset Candidate)) (e : Election) : Election :=
  mkElection (committee_size e) (apportionment_method e) (choices e)
             bs (ballot_to_indexes e) (counter e).

Definition set_ballot_to_indexes (ix : gmap (list Candidate) (list Z))
    (e : Election) : Election :=
  mkElection (committee_size e) (apportionment_method e) (choices e)
             (ballots e) ix (counter e).

Definition set_counter (c : Z) (e : Election) : Election :=
  mkElection (committee_size e) (apportionment_method e) (choices e)
             (ballots e) (ballot_to_indexes e) c.

(** Methods run on [self]; a raise leaves [self] as it is at that point. *)
Definition M (A : Type) : Type := Election → result A * Election.

Global Instance M_ret : MRet M := λ A a self, (Ok a, self).
Global Instance M_bind : MBind M := λ A B k m self,
  match m self with
  | (Ok a, self') => k a self'
  | (Err e, self') => (Err e, self')
  end.

Definition raise {A} (e : exn) : M A := λ self, (Err e, self).
Definition lift {A} (r : result A) : M A := λ self, (r, self).
Definition gets {A} (f : Election → A) : M A := λ self, (Ok (f self), self).
Definition modify (f : Election → Election) : M unit := λ self, (Ok tt, f self).

(** [self.ballot_to_indexes[key]]: the [defaultdict] stores an empty list
    under a key that is missing before it answers. *)
Definition index_getitem (key : list Candidate) : M (list Z) :=
  ix ← gets ballot_to_indexes;
  match ix !! key with
  | Some l => mret l
  | None => _ ← modify (set_ballot_to_indexes (<[key := []]> ix)); mret []
  end.

(** [del self.ballot_to_indexes[key]] *)
Definition index_delitem (key : index_key) : M unit :=
  if hashable key then
    match key with
    | key_tuple t =>
        ix ← gets ballot_to_indexes;
        match ix !! t with
        | Some _ => modify (set_ballot_to_indexes (delete t ix))
        | None => raise KeyError
        end
    | key_set _ => raise KeyError
    end
  else raise TypeError.

(** The ordering of [sort_values(by=["scores", "committees"],
    ascending=[False, True])]. *)
Definition row_le (r1 r2 : list Candidate * Qc) : Prop :=
  (r2.2 < r1.2)%Qc ∨ (r1.2 = r2.2 ∧ tuple_le r1.1 r2.1).

Global Instance row_le_dec : RelDecision row_le.
Proof. intros r1 r2. unfold row_le. apply _. Defined.

Definition sort_values (df : DataFrame) : DataFrame := merge_sort row_le df.

(** [sorted(keys, reverse=True)] on floats. *)
Definition float_ge (a b : Qc) : Prop := (b ≤ a)%Qc.

Global Instance float_ge_dec : RelDecision float_ge.
Proof. intros a b. unfold float_ge. apply _. Defined.

Definition sorted_reverse (keys : list Qc) : list Qc := merge_sort float_ge keys.

(** [pd.DataFrame({"committees": cs, "scores": ss})]: columns of different
    lengths raise [ValueError]. *)
Definition new_DataFrame (cs : list (list Candidate)) (ss : list Qc)
  : result DataFrame :=
  if decide (length cs = length ss) then Ok (zip cs ss) else Err ValueError.

(** The first loop of [get_result]: every candidate of every ballot. *)
Definition actual_choices_loop (bs : dict Z (gset Candidate)) : gset Candidate :=
  foldl (λ actual_choices ballot, actual_choices ∪ ballot) ∅ bs.*2.

(** [choices &= self.choices] when [self.choices] is not [None]. *)
Definition restrict_choices (actual_choices : gset Candidate)
    (self_choices : option (gset Candidate)) : gset Candidate :=
  match self_choices with
  | Some c => actual_choices ∩ c
  | None => actual_choices
  end.

(** The inner loop of [get_result]: the score of one committee. *)
Definition committee_score_loop (method : ApportionmentMethod)
    (bs : dict Z (gset Candidate)) (committee_candidate_set : gset Candidate)
  : result Qc :=
  foldl (λ acc ballot,
           committee_score ← acc;
           x ← @v method (len (ballot ∩ committee_candidate_set));
           Ok (committee_score + x)%Qc)
        (Ok 0%Qc) bs.*2.

(** The outer loop of [get_result]: committees grouped by score. *)
Definition best_committee_candidates_loop (method : ApportionmentMethod)
    (bs : dict Z (gset Candidate)) (combos : list (list Candidate))
  : result (dict Qc (list (list Candidate))) :=
  foldl (λ acc committee_candidate,
           best ← acc;
           committee_score ←
             committee_score_loop method bs (list_to_set committee_candidate);
           Ok (dict_setdefault_append best committee_score
                 (sorted committee_candidate)))
        (Ok []) combos.

Section with_set_iteration.
Context `{SetIteration}.

Definition cast_ballot (approves : list Candidate) : M Z :=
  let approves_set : gset Candidate := list_to_set approves in
  ballot_index ← gets counter;
  bs ← gets ballots;
  if dict_contains bs ballot_index then raise RuntimeError
  else
    _ ← modify (set_ballots (dict_setitem bs ballot_index approves_set));
    l ← index_getitem (sorted (set_iter approves_set));
    ix ← gets ballot_to_indexes;
    _ ← modify (set_ballot_to_indexes
                  (<[sorted (set_iter approves_set) := l ++ [ballot_index]]> ix));
    c ← gets counter;
    _ ← modify (set_counter (c + 1));
    mret ballot_index.

(** The body of [remove_ballot], over the outcome [check] of its
    [isinstance] test. *)
Definition remove_ballot_with (check : ballot_or_int → result bool)
    (ballot : ballot_or_int) : M unit :=
  is_ballot ← lift (check ballot);
  '(ballot_index, ballot_value) ←
    (if is_ballot : bool then
       match ballot with
       | a_ballot b =>
           l ← index_getitem (sorted (set_iter b));
           ballot_index ← lift (list_last l);
           mret (ballot_index, b)
       | an_int _ => raise TypeError (* [sorted] of an [int] *)
       end
     else
       match ballot with
       | an_int i =>
           bs ← gets ballots;
           ballot_value ← lift (dict_getitem bs i);
           mret (i, ballot_value)
       | a_ballot _ => raise TypeError (* a [set] as key of [self.ballots] *)
       end);
  bs ← gets ballots;
  bs' ← lift (dict_delitem bs ballot_index);
  _ ← modify (set_ballots bs');
  index_delitem (key_set ballot_value).

Definition remove_ballot (ballot : ballot_or_int) : M unit :=
  remove_ballot_with (λ b, isinstance b Ballot) ballot.

Definition get_result : M DataFrame :=
  bs ← gets ballots;
  let actual_choices := actual_choices_loop bs in
  self_choices ← gets choices;
  let choices := restrict_choices actual_choices self_choices in
  size ← gets committee_size;
  method ← gets apportionment_method;
  combos ← lift (combinations (set_iter choices) size);
  best ← lift (best_committee_candidates_loop method bs combos);
  let scores := sorted_reverse best.*1 in
  committees ← lift (mapM (dict_getitem best) scores);
  counts ← lift (mapM (λ score, l ← dict_getitem best score;
                                Ok (replicate (length l) score)) scores);
  df ← lift (new_DataFrame (concat committees) (concat counts));
  mret (sort_values df).

(** [get_result], with the conversion of [committee_size] that the call of
    [itertools.combinations] makes. *)
Definition get_result_ssize `{Allocator} : M DataFrame :=
  bs ← gets ballots;
  let actual_choices := actual_choices_loop bs in
  self_choices ← gets choices;
  let choices := restrict_choices actual_choices self_choices in
  size ← gets committee_size;
  method ← gets apportionment_method;
  combos ← lift (itertools_combinations (set_iter choices) size);
  best ← lift (best_committee_candidates_loop method bs combos);
  let scores := sorted_reverse best.*1 in
  committees ← lift (mapM (dict_getitem best) scores);
  counts ← lift (mapM (λ score, l ← dict_getitem best score;
                                Ok (replicate (length l) score)) scores);
  df ← lift (new_DataFrame (concat committees) (concat counts));
  mret (sort_values df).

End with_set_iteration.

(** An iteration order to run the model with. *)
Definition elements_iteration : SetIteration :=
  {| set_iter := elements; set_iter_perm := λ s, reflexivity _ |}.

(** The opposite order, to compare runs with. *)
Definition reverse_iteration : SetIteration :=
  {| set_iter s := reverse (elements s);
     set_iter_perm s := reverse_Permutation (elements s) |}.

(** ** Vocabulary of the properties *)

(** The candidates that committees are drawn from. *)
Definition candidate_universe (e : Election) : gset Candidate :=
  restrict_choices (actual_choices_loop (ballots e)) (choices e).

(** A method whose marginal weights are defined and positive from 1 on,
    as the docstrings of the subclasses describe them. *)
Class Conforming (method : ApportionmentMethod) : Prop :=
  dv_positive : ∀ i, 1 ≤ i → ∃ q, @dv method i = Ok q ∧ (0 < q)%Qc.

(** [sum(qs)] *)
Definition fsum (qs : list Qc) : Qc := foldr Qcplus 0%Qc qs.

(** A client of an [Election]: a sequence of method calls, each of which
    returns or raises; the client goes on after an exception. *)
Inductive call : Type :=
  | call_cast_ballot (approves : list Candidate)
  | call_remove_ballot (ballot : ballot_or_int).

Inductive outcome : Type :=
  | returned_int (i : Z)
  | returned_None
  | raised (e : exn).

Definition perform `{SetIteration} (check : ballot_or_int → result bool)
    (c : call) (self : Election) : outcome * Election :=
  match c with
  | call_cast_ballot approves =>
      match cast_ballot approves self with
      | (Ok i, self') => (returned_int i, self')
      | (Err e, self') => (raised e, self')
      end
  | call_remove_ballot ballot =>
      match remove_ballot_with check ballot self with
      | (Ok _, self') => (returned_None, self')
      | (Err e, self') => (raised e, self')
      end
  end.

Fixpoint run_calls `{SetIteration} (check : ballot_or_int → result bool)
    (cs : list call) (self : Election) : list outcome * Election :=
  match cs with
  | [] => ([], self)
  | c :: cs' =>
      let '(o, self') := perform check c self in
      let '(os, self'') := run_calls check cs' self' in
      (o :: os, self'')
  end.

(** The keys of the store are below the counter. *)
Definition keys_below_counter (e : Election) : Prop :=
  Forall (λ k, k < counter e) (ballots e).*1.

(** The identities handed out, in the order of the calls. *)
Definition returned_identities (os : list outcome) : list Z :=
  omap (λ o, match o with returned_int i => Some i | _ => None end) os.

(** The store after the ballots [{A, B}] and [{A, B}] were cast. *)
Definition two_equal_ballots : Election :=
  let I := elements_iteration in
  let e0 := new_Election 1 SainteLagueApportionmentMethod None in
  let e1 := (cast_ballot ["A"; "B"]%string e0).2 in
  (cast_ballot ["B"; "A"]%string e1).2.

(** The store after [cast_ballot({"A"})] on a fresh election. *)
Definition one_ballot_election : Election :=
  mkElection 1 SainteLagueApportionmentMethod None
    [(0, {["A"%string]})] {[ ["A"%string] := [0] ]} 1.

(** The election of the example script, before [get_result]. *)
Definition example_election : Election :=
  let I := elements_iteration in
  foldl (λ e approves, (cast_ballot approves e).2)
        (new_Election 3 SainteLagueApportionmentMethod None)
        [ ["A"; "B"; "C"]; ["A"; "B"; "X"]; ["A"; "B"; "C"]; ["A"; "B"; "X"];
          ["A"; "B"; "C"]; ["A"; "B"; "X"]; ["X"; "Y"; "Z"] ]%string.

(** The arguments of the [cast_ballot] calls of a client, in order. *)
Definition cast_arguments (cs : list call) : list (list Candidate) :=
  omap (λ c, match c with
             | call_cast_ballot approves => Some approves
             | call_remove_ballot _ => None
             end) cs.

(** The identities of the stored ballots that have the candidates of the
    sorted tuple [t], in the order of the store. *)
Definition identities_of (t : list Candidate)
    (bs : list (Z * gset Candidate)) : list Z :=
  (filter (λ p, sorted (elements p.2) = t) bs).*1.

(** The identities of the store count from 0 to the counter, and the
    index lists, under every sorted tuple, the ballots that have it. *)
Definition store_consistent (e : Election) : Prop :=
  (ballots e).*1 = seqZ 0 (counter e) ∧
  0 ≤ counter e ∧
  ∀ t, default [] (ballot_to_indexes e !! t) = identities_of t (ballots e).

(** The candidates of the universe in ascending order. *)
Definition sorted_universe (e : Election) : list Candidate :=
  sorted (elements (candidate_universe e)).

(** The cumulative weight as a number: the value that [v] returns, and 0
    where it raises. *)
Definition v_value (method : ApportionmentMethod) (k : Z) : Qc :=
  match @v method k with
  | Ok q => q
  | Err _ => 0%Qc
  end.

(** The weights that the ballots of a store give to a committee. *)
Definition ballot_weights (method : ApportionmentMethod)
    (bs : dict Z (gset Candidate)) (committee : gset Candidate) : list Qc :=
  (λ ballot, v_value method (len (ballot ∩ committee))) <$> bs.*2.

Definition committee_score (method : ApportionmentMethod)
    (bs : dict Z (gset Candidate)) (committee : gset Candidate) : Qc :=
  fsum (ballot_weights method bs committee).

(** The row that [get_result] makes of a committee. *)
Definition row_of (method : ApportionmentMethod) (bs : dict Z (gset Candidate))
    (committee_candidate : list Candidate) : list Candidate * Qc :=
  (sorted committee_candidate,
   committee_score method bs (list_to_set committee_candidate)).

(** The rows held by a dictionary from scores to committees. *)
Definition rows_of {V} (best : dict Qc (list V)) : list (V * Qc) :=
  '(score, cs) ← best; (λ c, (c, score)) <$> cs.

(** [d[k]], and the empty list where it raises. *)
Definition dict_get_list {K V} `{EqDecision K} (d : dict K (list V)) (k : K)
  : list V :=
  match dict_getitem d k with
  | Ok l => l
  | Err _ => []
  end.

(** The rows of the committees drawn from the sorted universe, in the order
    of [combinations_nat]. *)
Definition canonical_rows (e : Election) : DataFrame :=
  (λ t, (t, committee_score (apportionment_method e) (ballots e) (list_to_set t)))
    <$> combinations_nat (sorted_universe e) (Z.to_nat (committee_size e)).

(** * Properties *)

(** ** The orders used for sorting *)

Section orders.

Lemma ascii_compare_cases (x y : Ascii.ascii) :
  (Ascii.compare x y = Eq ∧ x = y) ∨
  (Ascii.compare x y = Lt ∧ (Ascii.N_of_ascii x < Ascii.N_of_ascii y)%N) ∨
  (Ascii.compare x y = Gt ∧ (Ascii.N_of_ascii y < Ascii.N_of_ascii x)%N).
Proof.
  unfold Ascii.compare.
  destruct (N.compare_spec (Ascii.N_of_ascii x) (Ascii.N_of_ascii y)) as [E|L|G].
  - left. split; [done|].
    rewrite <-(Ascii.ascii_N_embedding x), <-(Ascii.ascii_N_embedding y).
    by rewrite E.
  - right; left. done.
  - right; right. done.
Qed.

Lemma string_compare_refl (a : string) : String.compare a a = Eq.
Proof.
  induction a as [|x a IH]; simpl; [done|].
  destruct (ascii_compare_cases x x) as [[-> _]|[[_ ?]|[_ ?]]]; [done|lia..].
Qed.

Lemma string_compare_le_trans (a b c : string) :
  String.compare a b ≠ Gt → String.compare b c ≠ Gt → String.compare a c ≠ Gt.
Proof.
  revert b c. induction a as [|x a IH]; intros [|y b] [|z c]; simpl; try done.
  destruct (ascii_compare_cases x y) as [[Exy ?]|[[Exy ?]|[Exy ?]]];
    destruct (ascii_compare_cases y z) as [[Eyz ?]|[[Eyz ?]|[Eyz ?]]];
    destruct (ascii_compare_cases x z) as [[Exz ?]|[[Exz ?]|[Exz ?]]];
    rewrite Exy, Eyz, Exz; subst; try done; try lia.
  apply IH.
Qed.

Global Instance str_le_preorder : PreOrder str_le.
Proof.
  split.
  - intros a. unfold str_le, String.leb. by rewrite string_compare_refl.
  - intros a b c. unfold str_le, String.leb. intros Hab Hbc.
    pose proof (string_compare_le_trans a b c) as Ht.
    destruct (String.compare a b), (String.compare b c), (String.compare a c);
      try done; exfalso; by apply Ht.
Qed.

Global Instance str_le_total : Total str_le.
Proof. intros a b. apply String.leb_total. Qed.

Global Instance str_le_antisym : AntiSymm (=) str_le.
Proof. intros a b. apply String.leb_antisym. Qed.

Lemma tuple_compare_refl (s : list string) : tuple_compare s s = Eq.
Proof. induction s as [|a s IH]; simpl; [done|]. by rewrite string_compare_refl. Qed.

Lemma tuple_compare_eq (s t : list string) : tuple_compare s t = Eq → s = t.
Proof.
  revert t. induction s as [|a s IH]; intros [|b t]; simpl; try done.
  destruct (String.compare a b) eqn:E; try done.
  intros Hst. apply String.compare_eq_iff in E. f_equal; auto.
Qed.

Lemma tuple_compare_antisym (s t : list string) :
  tuple_compare s t = CompOpp (tuple_compare t s).
Proof.
  revert t. induction s as [|a s IH]; intros [|b t]; simpl; try done.
  rewrite (String.compare_antisym a b).
  destruct (String.compare b a); simpl; auto.
Qed.

Lemma string_compare_lt_trans (a b c : string) :
  String.compare a b = Lt → String.compare b c ≠ Gt → String.compare a c = Lt.
Proof.
  intros Hab Hbc.
  assert (String.compare a c ≠ Gt) as Hac
    by (apply (string_compare_le_trans a b c); [by rewrite Hab|done]).
  destruct (String.compare a c) eqn:E; try done.
  apply String.compare_eq_iff in E as ->.
  rewrite String.compare_antisym, Hab in Hbc. done.
Qed.

Lemma tuple_compare_le_trans (s t u : list string) :
  tuple_compare s t ≠ Gt → tuple_compare t u ≠ Gt → tuple_compare s u ≠ Gt.
Proof.
  revert t u. induction s as [|a s IH]; intros [|b t] [|c u]; simpl; try done.
  destruct (String.compare a b) eqn:Eab; try done.
  - apply String.compare_eq_iff in Eab as ->.
    destruct (String.compare b c); try done. apply IH.
  - intros _ Hbc.
    assert (String.compare b c ≠ Gt) as Hbc'
      by (destruct (String.compare b c); done).
    by rewrite (string_compare_lt_trans a b c Eab Hbc').
Qed.

Global Instance tuple_le_preorder : PreOrder tuple_le.
Proof.
  split.
  - intros s. unfold tuple_le. by rewrite tuple_compare_refl.
  - intros s t u. apply tuple_compare_le_trans.
Qed.

Global Instance tuple_le_total : Total tuple_le.
Proof.
  intros s t. unfold tuple_le. rewrite (tuple_compare_antisym t s).
  destruct (tuple_compare s t); simpl; auto.
Qed.

Global Instance tuple_le_antisym : AntiSymm (=) tuple_le.
Proof.
  intros s t. unfold tuple_le. rewrite (tuple_compare_antisym t s).
  destruct (tuple_compare s t) eqn:E; simpl; try done.
  intros _ _. by apply tuple_compare_eq.
Qed.

Global Instance float_ge_preorder : PreOrder float_ge.
Proof.
  split.
  - intros a. apply Qcle_refl.
  - intros a b c Hab Hbc. unfold float_ge in *. by apply Qcle_trans with b.
Qed.

Global Instance float_ge_total : Total float_ge.
Proof. intros a b. unfold float_ge. destruct (Qc_le_total a b); auto. Qed.

Global Instance row_le_trans : Transitive row_le.
Proof.
  intros [c1 s1] [c2 s2] [c3 s3]. unfold row_le. simpl.
  intros [H12|[-> H12]] [H23|[-> H23]].
  - left. by apply Qclt_trans with s2.
  - by left.
  - by left.
  - right. split; [done|]. by trans c2.
Qed.

Global Instance row_le_total : Total row_le.
Proof.
  intros [c1 s1] [c2 s2]. unfold row_le. simpl.
  destruct (Qclt_le_dec s2 s1) as [?|Hle]; [by left; left|].
  destruct (Qclt_le_dec s1 s2) as [?|Hge]; [by right; left|].
  assert (s1 = s2) as -> by (by apply Qcle_antisym).
  destruct (total tuple_le c1 c2); [left|right]; right; done.
Qed.

(** Two rows that precede each other carry the same committee. *)
Lemma row_le_antisym_committee r1 r2 : row_le r1 r2 → row_le r2 r1 → r1.1 = r2.1.
Proof.
  destruct r1 as [c1 s1], r2 as [c2 s2]. unfold row_le. simpl.
  intros [H12|[-> H12]] [H21|[E H21]].
  - destruct (Qclt_not_le _ _ H12). by apply Qclt_le_weak.
  - subst. by destruct (Qclt_not_eq _ _ H12).
  - by destruct (Qclt_not_eq _ _ H21).
  - by apply (anti_symm tuple_le).
Qed.

End orders.

(** ** Apportionment methods *)

Section apportionment.

Lemma range_snoc (index : Z) :
  1 ≤ index → range 1 (index + 1) = range 1 index ++ [index].
Proof.
  intros Hi. unfold range.
  replace (Z.to_nat (index + 1 - 1)) with (S (Z.to_nat (index - 1))) by lia.
  rewrite seq_S, map_app. simpl. do 2 f_equal. lia.
Qed.

Lemma sum_gen_snoc (f : Z → result Qc) (l : list Z) (i : Z) :
  sum_gen f (l ++ [i]) = (a ← sum_gen f l; x ← f i; Ok (a + x)%Qc).
Proof. unfold sum_gen. by rewrite foldl_app. Qed.

(** [v] of any subclass adds [dv(index)] to what it returns one index
    earlier; an exception raised on the way is the same on both sides. *)
Lemma v_unfold_last (method : ApportionmentMethod) (index : Z) :
  1 ≤ index →
  @v method index = (a ← @v method (index - 1); b ← @dv method index; Ok (a + b)%Qc).
Proof.
  intros Hi. unfold v at 1.
  destruct (Z.ltb_spec index 0) as [?|_]; [lia|].
  destruct (Z.eqb_spec index 0) as [?|_]; [lia|].
  rewrite range_snoc, sum_gen_snoc by done.
  unfold v.
  destruct (Z.ltb_spec (index - 1) 0) as [?|_]; [lia|].
  destruct (Z.eqb_spec (index - 1) 0) as [E|_].
  - by replace index with 1 by lia.
  - by replace (index - 1 + 1) with index by lia.
Qed.

Lemma v_0 (method : ApportionmentMethod) : @v method 0 = Ok 0%Qc.
Proof. done. Qed.

Lemma float_of_int_odd_positive (i : Z) :
  1 ≤ i → (0 < 1 / float_of_int (-1 + 2 * i))%Qc.
Proof.
  intros Hi. unfold Qcdiv. rewrite Qcmult_1_l. apply Qcinv_pos.
  unfold float_of_int.
  assert (0 < -1 + 2 * i) as Hlt%Z2Qc_inj_lt by lia.
  by rewrite Z2Qc_inj_0 in Hlt.
Qed.

Global Instance SainteLague_conforming : Conforming SainteLagueApportionmentMethod.
Proof.
  intros i Hi. simpl.
  destruct (Z.ltb_spec i 0) as [?|_]; [lia|].
  destruct (Z.eqb_spec i 0) as [?|_]; [lia|].
  eauto using float_of_int_odd_positive.
Qed.

Global Instance SainteLague12_conforming :
  Conforming SainteLague12ApportionmentMethod.
Proof.
  intros i Hi. simpl.
  destruct (Z.ltb_spec i 0) as [?|_]; [lia|].
  destruct (Z.eqb_spec i 0) as [?|_]; [lia|].
  destruct (Z.eqb_spec i 1) as [?|_]; [|eauto using float_of_int_odd_positive].
  eexists. split; [done|]. by vm_compute.
Qed.

Global Instance SainteLague14_conforming :
  Conforming SainteLague14ApportionmentMethod.
Proof.
  intros i Hi. simpl.
  destruct (Z.ltb_spec i 0) as [?|_]; [lia|].
  destruct (Z.eqb_spec i 0) as [?|_]; [lia|].
  destruct (Z.eqb_spec i 1) as [?|_]; [|eauto using float_of_int_odd_positive].
  eexists. split; [done|]. by vm_compute.
Qed.

(** What [from_name] returns is one of the three subclasses. *)
Lemma from_name_Ok (name : string) (method : ApportionmentMethod) :
  from_name name = Ok method →
  (name = "sainte_lague" ∧ method = SainteLagueApportionmentMethod) ∨
  (name = "sainte_lague_1_2" ∧ method = SainteLague12ApportionmentMethod) ∨
  (name = "sainte_lague_1_4" ∧ method = SainteLague14ApportionmentMethod).
Proof.
  unfold from_name, from_name_table. simpl.
  repeat case_decide; intros ?; simplify_eq; auto.
Qed.

Lemma from_name_conforming (name : string) (method : ApportionmentMethod) :
  from_name name = Ok method → Conforming method.
Proof.
  intros [[_ ->]|[[_ ->]|[_ ->]]]%from_name_Ok; apply _.
Qed.

(** A conforming method has a cumulative weight at every index from 0 on,
    and it is not negative. *)
Lemma v_defined (method : ApportionmentMethod) `{!Conforming method} (k : Z) :
  0 ≤ k → ∃ q, @v method k = Ok q ∧ (0 ≤ q)%Qc.
Proof.
  revert k. apply natlike_ind.
  - exists 0%Qc. split; [done|]. apply Qcle_refl.
  - intros k Hk (a & Ha & Hapos).
    destruct (dv_positive (Z.succ k)) as (b & Hb & Hbpos); [lia|].
    exists (a + b)%Qc. split.
    + rewrite v_unfold_last by lia.
      replace (Z.succ k - 1) with k by lia. by rewrite Ha, Hb.
    + apply Qcplus_nonneg_nonneg; [done|]. by apply Qclt_le_weak.
Qed.

(** Over exact rationals, [v(index)] is [v(index - 1) + dv(index)] for every
    method that [from_name] returns; what the interpreter computes in
    binary64 is [v64]. *)
Lemma v_exact_prefix_sum (name : string) (method : ApportionmentMethod)
    (index : Z) :
  from_name name = Ok method →
  1 ≤ index →
  @v method 0 = Ok 0%Qc ∧
  ∃ a b, @v method (index - 1) = Ok a ∧ @dv method index = Ok b ∧
         @v method index = Ok (a + b)%Qc.
Proof.
  intros Hname Hi. split; [done|].
  pose proof (from_name_conforming _ _ Hname) as Hc.
  destruct (v_defined method (index - 1)) as (a & Ha & _); [lia|].
  destruct (dv_positive index Hi) as (b & Hb & _).
  exists a, b. split_and!; [done..|].
  by rewrite v_unfold_last, Ha, Hb by done.
Qed.

(** C4: [from_name("d_hondt")] raises [KeyError]: the name that the
    annotation of [from_name] lists first has no entry in its dictionary. *)
Theorem from_name_d_hondt_raises : from_name "d_hondt" = Err KeyError.
Proof. reflexivity. Qed.

(** The three names of the dictionary resolve; every other name raises
    [KeyError]. *)
Lemma from_name_spec (name : string) :
  from_name name =
    if decide (name = "sainte_lague"%string) then Ok SainteLagueApportionmentMethod
    else if decide (name = "sainte_lague_1_2"%string)
    then Ok SainteLague12ApportionmentMethod
    else if decide (name = "sainte_lague_1_4"%string)
    then Ok SainteLague14ApportionmentMethod
    else Err KeyError.
Proof.
  unfold from_name, from_name_table. simpl.
  repeat case_decide; simplify_eq; done.
Qed.

End apportionment.

(** ** The ballot store *)

Ltac run_M :=
  unfold mbind, M_bind, mret, M_ret, gets, modify, lift, raise; simpl.

Ltac raised_here :=
  eexists _, _; split_and!;
  [reflexivity | reflexivity | try (simpl; tauto) | try congruence].

Section store.
Context `{SetIteration}.

Lemma dict_contains_spec {V} (d : dict Z V) (k : Z) :
  dict_contains d k = true ↔ k ∈ d.*1.
Proof. unfold dict_contains. apply bool_decide_eq_true. Qed.

Lemma dict_setitem_keys {V} (P : Z → Prop) (d : dict Z V) (k : Z) (x : V) :
  Forall P d.*1 → P k → Forall P (dict_setitem d k x).*1.
Proof.
  intros Hd Hk. induction d as [|[k' y] d IH]; simpl in *.
  - by constructor.
  - inversion_clear Hd. case_decide; simpl; constructor; auto.
Qed.

Lemma dict_setitem_fresh {V} (d : dict Z V) (k : Z) (x : V) :
  k ∉ d.*1 → dict_setitem d k x = d ++ [(k, x)].
Proof.
  induction d as [|[k' y] d IH]; simpl; [done|].
  rewrite not_elem_of_cons. intros [Hne Hnin].
  case_decide; [congruence|]. by rewrite IH.
Qed.

Lemma dict_delitem_keys {V} (P : Z → Prop) (d d' : dict Z V) (k : Z) :
  dict_delitem d k = Ok d' → Forall P d.*1 → Forall P d'.*1.
Proof.
  revert d'. induction d as [|[k' y] d IH]; intros d'; simpl; [done|].
  intros Hdel Hd. inversion_clear Hd. case_decide.
  - by simplify_eq.
  - destruct (dict_delitem d k) as [d''|] eqn:E; simpl in Hdel; [|done].
    simplify_eq. simpl. constructor; auto.
Qed.

(** [index_getitem] touches nothing but the index. *)
Lemma index_getitem_state (key : list Candidate) (e : Election) :
  ∃ l ix, index_getitem key e = (Ok l, set_ballot_to_indexes ix e) ∧
          (ix !! key = Some l) ∧
          (l = default [] (ballot_to_indexes e !! key)).
Proof.
  unfold index_getitem. run_M.
  destruct (ballot_to_indexes e !! key) as [l|] eqn:E.
  - exists l, (ballot_to_indexes e). by destruct e.
  - exists [], (<[key:=[]]> (ballot_to_indexes e)).
    split_and!; [done| |done]. by rewrite lookup_insert_eq.
Qed.

(** What [cast_ballot] does when the counter is not a key of the store. *)
Lemma cast_ballot_fresh (approves : list Candidate) (e : Election) :
  counter e ∉ (ballots e).*1 →
  ∃ ix, cast_ballot approves e =
    (Ok (counter e),
     mkElection (committee_size e) (apportionment_method e) (choices e)
       (ballots e ++ [(counter e, list_to_set approves)]) ix (counter e + 1)).
Proof.
  intros Hfresh. unfold cast_ballot. run_M.
  destruct (dict_contains (ballots e) (counter e)) eqn:E.
  { by apply dict_contains_spec in E. }
  rewrite dict_setitem_fresh by done.
  match goal with
  | |- context [index_getitem ?key ?self] =>
      destruct (index_getitem_state key self) as (l & ix & -> & _ & _)
  end.
  simpl. eauto.
Qed.

Lemma dict_getitem_Err {K V} `{EqDecision K} (d : dict K V) (k : K) (ex : exn) :
  dict_getitem d k = Err ex → ex = KeyError.
Proof.
  induction d as [|[k' y] d IH]; simpl; [congruence|]. case_decide; [done|auto].
Qed.

Lemma dict_delitem_Err {K V} `{EqDecision K} (d : dict K V) (k : K) (ex : exn) :
  dict_delitem d k = Err ex → ex = KeyError.
Proof.
  induction d as [|[k' y] d IH]; simpl; [congruence|]. case_decide; [done|].
  destruct (dict_delitem d k); simpl; [done|]. intros [= <-]. auto.
Qed.

Lemma list_last_Err {A} (l : list A) (ex : exn) :
  list_last l = Err ex → ex = IndexError.
Proof. unfold list_last. destruct (last l); congruence. Qed.

Lemma isinstance_Err (obj : ballot_or_int) (cls : classinfo) (ex : exn) :
  isinstance obj cls = Err ex → ex = TypeError.
Proof. destruct cls, obj; simpl; congruence. Qed.

(** [remove_ballot] never returns, whatever comes out of its [isinstance]
    test; the counter stays, and no ballot is added. *)
Lemma remove_ballot_with_raises (check : ballot_or_int → result bool)
    (ballot : ballot_or_int) (e : Election) :
  ∃ ex e', remove_ballot_with check ballot e = (Err ex, e') ∧
           counter e' = counter e ∧
           (∀ P : Z → Prop, Forall P (ballots e).*1 → Forall P (ballots e').*1) ∧
           (check ballot ≠ Err RuntimeError → ex ≠ RuntimeError).
Proof.
  unfold remove_ballot_with, index_delitem. run_M.
  destruct (check ballot) as [[]|ex]; [| |raised_here].
  - destruct ballot as [b|i]; [|raised_here].
    destruct (index_getitem_state (sorted (set_iter b)) e)
      as (l & ix & -> & _ & _).
    destruct (list_last l) as [ballot_index|ex] eqn:El; simpl.
    2:{ apply list_last_Err in El as ->. raised_here. }
    destruct (dict_delitem (ballots e) ballot_index) as [bs'|ex] eqn:E; simpl.
    2:{ apply dict_delitem_Err in E as ->. raised_here. }
    raised_here. eauto using dict_delitem_keys.
  - destruct ballot as [b|i]; [raised_here|].
    destruct (dict_getitem (ballots e) i) as [ballot_value|ex] eqn:Eg; simpl.
    2:{ apply dict_getitem_Err in Eg as ->. raised_here. }
    destruct (dict_delitem (ballots e) i) as [bs'|ex] eqn:E; simpl.
    2:{ apply dict_delitem_Err in E as ->. raised_here. }
    raised_here. eauto using dict_delitem_keys.
Qed.

(** With the alias [Ballot] as the class, the [isinstance] test itself
    raises, before anything is read or written. *)
Lemma remove_ballot_raises (ballot : ballot_or_int) (e : Election) :
  remove_ballot ballot e = (Err TypeError, e).
Proof. by destruct ballot. Qed.

Lemma perform_invariant (cls : classinfo) (c : call) (e : Election) :
  keys_below_counter e →
  ∃ o e', perform (λ b, isinstance b cls) c e = (o, e') ∧
    keys_below_counter e' ∧
    o ≠ raised RuntimeError ∧
    match c with
    | call_cast_ballot _ => o = returned_int (counter e) ∧ counter e' = counter e + 1
    | call_remove_ballot _ => (∀ i, o ≠ returned_int i) ∧ counter e' = counter e
    end.
Proof.
  intros Hinv. destruct c as [approves|ballot]; simpl.
  - destruct (cast_ballot_fresh approves e) as [ix ->].
    { intros Hin. unfold keys_below_counter in Hinv.
      rewrite Forall_forall in Hinv. apply Hinv in Hin. lia. }
    eexists _, _. split; [done|]. unfold keys_below_counter. simpl.
    split_and!; [|done..].
    rewrite fmap_app, Forall_app. split.
    + eapply Forall_impl; [exact Hinv|]. simpl. intros; lia.
    + repeat constructor. simpl. lia.
  - destruct (remove_ballot_with_raises (λ b, isinstance b cls) ballot e)
      as (ex & e' & -> & Hc & Hb & Hex).
    eexists _, _. split; [done|]. unfold keys_below_counter.
    rewrite Hc. split_and!; [by apply Hb| |done..].
    intros [= ->]. apply Hex; [|done].
    intros ?%isinstance_Err. done.
Qed.

Lemma run_calls_invariant (cls : classinfo) (cs : list call) (e : Election) :
  keys_below_counter e →
  ∃ os e', run_calls (λ b, isinstance b cls) cs e = (os, e') ∧
    keys_below_counter e' ∧ counter e ≤ counter e' ∧
    (raised RuntimeError ∉ os) ∧
    Forall2 (λ c o, match c with
                    | call_cast_ballot _ => ∃ i, o = returned_int i
                    | call_remove_ballot _ => True
                    end) cs os ∧
    Forall (λ i, counter e ≤ i ∧ i < counter e') (returned_identities os) ∧
    StronglySorted Z.lt (returned_identities os).
Proof.
  revert e. induction cs as [|c cs IH]; intros e Hinv; simpl.
  - eexists _, _. split; [done|].
    split_and!; try done; try lia; try constructor. apply not_elem_of_nil.
  - destruct (perform_invariant cls c e Hinv) as (o & e1 & -> & Hinv1 & Ho & Hc).
    destruct (IH e1 Hinv1) as (os & e2 & -> & Hinv2 & Hle & Hos & Hret & Hids & Hsorted).
    eexists _, _. split; [done|].
    assert (counter e ≤ counter e1) as Hle1 by (destruct c; lia).
    split_and!; [done|lia| | | |].
    + rewrite not_elem_of_cons. done.
    + constructor; [|done]. destruct c; [|done]. destruct Hc as [-> _]. eauto.
    + unfold returned_identities in *. simpl.
      destruct c as [approves|ballot].
      * destruct Hc as [-> Hc]. simpl. constructor; [lia|].
        eapply Forall_impl; [exact Hids|]. simpl. intros; lia.
      * destruct Hc as [Hc _]. destruct o; [by destruct (Hc i)|..]; simpl;
          (eapply Forall_impl; [exact Hids|]; simpl; intros; lia).
    + unfold returned_identities in *. simpl.
      destruct c as [approves|ballot].
      * destruct Hc as [-> Hc]. simpl. constructor; [done|].
        eapply Forall_impl; [exact Hids|]. simpl. intros; lia.
      * destruct Hc as [Hc _]. destruct o; [by destruct (Hc i)|..]; done.
Qed.

(** C10: over every finite sequence of [cast_ballot] and [remove_ballot]
    calls on a fresh [Election], every [cast_ballot] returns an identity,
    each identity is greater than all those returned before it, and no call
    raises [RuntimeError]; this holds for the alias [Ballot] and for any
    class in its place in the [isinstance] test. *)
Theorem identities_increase_and_no_invariant_breach (cls : classinfo)
    (size : Z) (method : ApportionmentMethod)
    (eligible : option (gset Candidate)) (cs : list call) :
  let os := (run_calls (λ b, isinstance b cls) cs
               (new_Election size method eligible)).1 in
  (raised RuntimeError ∉ os) ∧
  Forall2 (λ c o, match c with
                  | call_cast_ballot _ => ∃ i, o = returned_int i
                  | call_remove_ballot _ => True
                  end) cs os ∧
  StronglySorted Z.lt (returned_identities os).
Proof.
  destruct (run_calls_invariant cls cs (new_Election size method eligible))
    as (os & e' & -> & _ & _ & Hos & Hret & _ & Hsorted).
  { constructor. }
  done.
Qed.

End store.

(** ** Removal *)

Section removal.

(** C6: [remove_ballot] never succeeds.  As written, its [isinstance] test
    raises [TypeError] and the store is left as it was; with a class in the
    place of the alias, the last statement deletes from the index under a
    [set], which has no hash, and raises [TypeError] as well. *)
Theorem remove_ballot_never_succeeds `{SetIteration} (cls : classinfo)
    (ballot : ballot_or_int) (e : Election) :
  remove_ballot ballot e = (Err TypeError, e) ∧
  (remove_ballot_with (λ b, isinstance b cls) ballot e).1 ≠ Ok ().
Proof.
  split; [apply remove_ballot_raises|].
  destruct (remove_ballot_with_raises (λ b, isinstance b cls) ballot e)
    as (ex & e' & -> & _).
  done.
Qed.

(** C7: with two stored ballots [{A, B}], removal by that value raises
    [TypeError] and both ballots stay.  With the class [set] in the
    [isinstance] test, the later ballot goes from [ballots] before the same
    exception, and the index keeps both identities. *)
Theorem remove_by_value_keeps_both_ballots :
  let I := elements_iteration in
  let e := two_equal_ballots in
  let AB : gset Candidate := {["A"; "B"]}%string in
  (ballots e).*1 = [0; 1] ∧
  ballot_to_indexes e !! ["A"; "B"]%string = Some [0; 1] ∧
  remove_ballot (a_ballot AB) e = (Err TypeError, e) ∧
  let r := remove_ballot_with (λ b, isinstance b class_set) (a_ballot AB) e in
  r.1 = Err TypeError ∧
  (ballots r.2).*1 = [0] ∧
  ballot_to_indexes r.2 !! ["A"; "B"]%string = Some [0; 1].
Proof.
  split_and!; [by vm_compute..|apply remove_ballot_raises|].
  split_and!; by vm_compute.
Qed.

(** C8: after [cast_ballot({"A"})] on a fresh election, [remove_ballot]
    by the returned identity or by value raises [TypeError], the ballot is
    still stored, and [get_result] has a row that it did not have before.
    With the class [set] in the [isinstance] test the ballot goes, and its
    identity stays in the index. *)
Theorem cast_then_remove_does_not_restore :
  let I := elements_iteration in
  let e0 := new_Election 1 SainteLagueApportionmentMethod None in
  let e1 := (cast_ballot ["A"]%string e0).2 in
  let A : gset Candidate := {["A"]}%string in
  (cast_ballot ["A"]%string e0).1 = Ok 0 ∧
  remove_ballot (an_int 0) e1 = (Err TypeError, e1) ∧
  remove_ballot (a_ballot A) e1 = (Err TypeError, e1) ∧
  ballots e0 = [] ∧
  ballots e1 = [(0, A)] ∧
  (get_result e0).1 = Ok [] ∧
  (get_result e1).1 = Ok [(["A"]%string, 1%Qc)] ∧
  let r := remove_ballot_with (λ b, isinstance b class_set) (an_int 0) e1 in
  r.1 = Err TypeError ∧
  ballot_to_indexes e0 !! ["A"]%string = None ∧
  ballot_to_indexes r.2 !! ["A"]%string = Some [0].
Proof.
  split_and!; [done|apply remove_ballot_raises|apply remove_ballot_raises|
               done|by vm_compute|by vm_compute|by vm_compute|].
  split_and!; by vm_compute.
Qed.

End removal.

(** ** Scoring *)

Section scoring.
Context (method : ApportionmentMethod) `{!Conforming method}.
Implicit Types (bs : dict Z (gset Candidate)) (committee : gset Candidate).

Lemma len_nonneg (s : gset Candidate) : 0 ≤ len s.
Proof. unfold len. lia. Qed.

Lemma v_value_Ok (k : Z) : 0 ≤ k → @v method k = Ok (v_value method k).
Proof.
  intros Hk. unfold v_value.
  by destruct (v_defined method k Hk) as (q & -> & _).
Qed.

Lemma v_value_nonneg (k : Z) : 0 ≤ k → (0 ≤ v_value method k)%Qc.
Proof.
  intros Hk. unfold v_value.
  by destruct (v_defined method k Hk) as (q & -> & ?).
Qed.

Lemma fsum_snoc (qs : list Qc) (q : Qc) : fsum (qs ++ [q]) = (fsum qs + q)%Qc.
Proof.
  unfold fsum. induction qs as [|x qs IH]; simpl.
  - by rewrite Qcplus_0_l, Qcplus_0_r.
  - by rewrite IH, Qcplus_assoc.
Qed.

Lemma fsum_nonneg (qs : list Qc) : Forall (λ q, 0 ≤ q)%Qc qs → (0 ≤ fsum qs)%Qc.
Proof.
  induction 1; simpl; [apply Qcle_refl|]. by apply Qcplus_nonneg_nonneg.
Qed.

(** The inner loop returns the sum of the weights of the ballots. *)
Lemma committee_score_loop_Ok bs committee :
  committee_score_loop method bs committee = Ok (committee_score method bs committee).
Proof.
  unfold committee_score_loop, committee_score, ballot_weights.
  induction (bs.*2) as [|ballot l IH] using rev_ind; [done|].
  rewrite foldl_app, fmap_app. simpl. rewrite fsum_snoc, IH. simpl.
  by rewrite v_value_Ok by apply len_nonneg.
Qed.

Lemma committee_score_nonneg bs committee :
  (0 ≤ committee_score method bs committee)%Qc.
Proof.
  apply fsum_nonneg, Forall_fmap, Forall_true. intros ballot. simpl.
  apply v_value_nonneg, len_nonneg.
Qed.

(** The outer loop groups the rows of the committees by score. *)
Lemma best_committee_candidates_loop_Ok bs (combos : list (list Candidate)) :
  best_committee_candidates_loop method bs combos =
  Ok (foldl (λ best c, dict_setdefault_append best (row_of method bs c).2
                         (row_of method bs c).1) [] combos).
Proof.
  unfold best_committee_candidates_loop.
  induction combos as [|c combos IH] using rev_ind; [done|].
  rewrite !foldl_app. simpl. rewrite IH. simpl.
  by rewrite committee_score_loop_Ok.
Qed.

End scoring.

(** ** Grouping by score and reading the groups back *)

Section grouping.
Context {V : Type}.
Implicit Types (d : dict Qc (list V)) (k : Qc) (x : V).

Lemma dict_setdefault_append_keys d k x :
  (dict_setdefault_append d k x).*1 = if decide (k ∈ d.*1) then d.*1 else d.*1 ++ [k].
Proof.
  induction d as [|[k' l] d IH].
  - rewrite decide_False; [done|]. apply not_elem_of_nil.
  - csimpl. destruct (decide (k' = k)) as [->|Hne]; csimpl.
    + rewrite decide_True; [done|]. apply elem_of_cons; auto.
    + rewrite IH. destruct (decide (k ∈ d.*1)) as [Hin|Hnin].
      * rewrite decide_True; [done|]. apply elem_of_cons; auto.
      * rewrite decide_False; [done|]. rewrite elem_of_cons. by intros [?|?].
Qed.

Lemma dict_setdefault_append_NoDup d k x :
  NoDup d.*1 → NoDup (dict_setdefault_append d k x).*1.
Proof.
  intros Hd. rewrite dict_setdefault_append_keys. case_decide; [done|].
  apply NoDup_app. split_and!; [done| |apply NoDup_singleton].
  intros y Hy ->%list_elem_of_singleton. done.
Qed.

Lemma rows_of_setdefault_append d k x :
  rows_of (dict_setdefault_append d k x) ≡ₚ rows_of d ++ [(x, k)].
Proof.
  induction d as [|[k' l] d IH]; csimpl; [done|].
  case_decide as Hk; csimpl.
  - subst. rewrite fmap_app. simpl. rewrite <-!(assoc_L (++)).
    f_equiv. apply Permutation_app_comm.
  - by rewrite IH, (assoc_L (++)).
Qed.

Lemma dict_getitem_elem_of d k :
  k ∈ d.*1 → dict_getitem d k = Ok (dict_get_list d k).
Proof.
  unfold dict_get_list. induction d as [|[k' l] d IH]; simpl.
  - by intros ?%elem_of_nil.
  - intros Hin. case_decide; [done|].
    apply elem_of_cons in Hin as [?|Hin]; [congruence|]. by apply IH.
Qed.

Lemma mapM_dict_getitem d (ks : list Qc) :
  Forall (λ k, k ∈ d.*1) ks →
  mapM (dict_getitem d) ks = Ok (dict_get_list d <$> ks).
Proof.
  induction 1 as [|k ks Hk _ IH]; [done|].
  simpl. rewrite dict_getitem_elem_of by done. simpl. by rewrite IH.
Qed.

Lemma mapM_dict_getitem_replicate d (ks : list Qc) :
  Forall (λ k, k ∈ d.*1) ks →
  mapM (λ score, l ← dict_getitem d score; Ok (replicate (length l) score)) ks =
  Ok ((λ k, replicate (length (dict_get_list d k)) k) <$> ks).
Proof.
  induction 1 as [|k ks Hk _ IH]; [done|].
  simpl. rewrite dict_getitem_elem_of by done. simpl. by rewrite IH.
Qed.

Lemma zip_replicate_app (l : list V) k (A : list V) (B : list Qc) :
  zip (l ++ A) (replicate (length l) k ++ B) = ((λ c, (c, k)) <$> l) ++ zip A B.
Proof. induction l as [|c l IH]; simpl; [done|]. by rewrite IH. Qed.

Lemma columns_zip d (ks : list Qc) :
  let committees := concat (dict_get_list d <$> ks) in
  let scores := concat ((λ k, replicate (length (dict_get_list d k)) k) <$> ks) in
  length committees = length scores ∧
  zip committees scores = (k ← ks; (λ c, (c, k)) <$> dict_get_list d k).
Proof.
  induction ks as [|k ks [IHlen IHzip]]; csimpl in *; [done|]. split.
  - rewrite !length_app, length_replicate, IHlen. done.
  - by rewrite zip_replicate_app, IHzip.
Qed.

Lemma list_bind_ext_elem_of {A B} (f g : A → list B) (l : list A) :
  (∀ a, a ∈ l → f a = g a) → l ≫= f = l ≫= g.
Proof.
  induction l as [|a l IH]; intros Hfg; csimpl; [done|].
  rewrite Hfg, IH; [done| |by left]. intros b Hb. apply Hfg. by right.
Qed.

Lemma rows_of_via_keys d :
  NoDup d.*1 →
  (k ← d.*1; (λ c, (c, k)) <$> dict_get_list d k) = rows_of d.
Proof.
  induction d as [|[k l] d IH]; csimpl; [done|].
  rewrite NoDup_cons. intros [Hnin Hd].
  unfold dict_get_list at 1. simpl. rewrite decide_True by done. f_equal.
  rewrite <-IH by done. apply list_bind_ext_elem_of. intros k' Hk'.
  unfold dict_get_list. simpl. rewrite decide_False; [done|]. by intros ->.
Qed.

End grouping.

(** ** Sorting and enumeration *)

Section enumeration.

Lemma sorted_Permutation (l : list string) : sorted l ≡ₚ l.
Proof. apply merge_sort_Permutation. Qed.

Lemma sorted_StronglySorted (l : list string) : StronglySorted str_le (sorted l).
Proof. apply StronglySorted_merge_sort; apply _. Qed.

(** [sorted] sees the elements only, not their order. *)
Lemma sorted_proper (l1 l2 : list string) : l1 ≡ₚ l2 → sorted l1 = sorted l2.
Proof.
  intros Hl. apply (StronglySorted_unique str_le);
    [apply sorted_StronglySorted..|].
  by rewrite !sorted_Permutation.
Qed.

Lemma sorted_cons (x : string) (c : list string) :
  sorted (x :: c) = sorted (x :: sorted c).
Proof. apply sorted_proper. by rewrite sorted_Permutation. Qed.

Lemma list_to_set_sorted (c : list string) :
  list_to_set (sorted c) =@{gset string} list_to_set c.
Proof. apply list_to_set_perm_L, sorted_Permutation. Qed.

Lemma sorted_length (c : list string) : length (sorted c) = length c.
Proof. by rewrite sorted_Permutation. Qed.

Lemma sorted_NoDup (c : list string) : NoDup c → NoDup (sorted c).
Proof. by rewrite sorted_Permutation. Qed.

Lemma combinations_nat_elem_of {A} (pool c : list A) (r : nat) :
  c ∈ combinations_nat pool r → length c = r ∧ sublist c pool.
Proof.
  revert r c. induction pool as [|x pool IH]; intros [|r] c; simpl.
  - intros ->%list_elem_of_singleton. split; [done|constructor].
  - by intros ?%elem_of_nil.
  - intros ->%list_elem_of_singleton. split; [done|apply sublist_nil_l].
  - rewrite elem_of_app, list_elem_of_fmap.
    intros [(c' & -> & [<- ?]%IH)|[? ?]%IH]; split; simpl; try done.
    + by constructor.
    + by constructor.
Qed.

Lemma combinations_nat_too_many {A} (pool : list A) (r : nat) :
  (length pool < r)%nat → combinations_nat pool r = [].
Proof.
  revert r. induction pool as [|x pool IH]; intros [|r] Hr; simpl in *;
    try done; try lia.
  rewrite !IH by lia. done.
Qed.

Lemma combinations_nat_0 {A} (pool : list A) : combinations_nat pool 0 = [[]].
Proof. by destruct pool. Qed.

(** The committees drawn from a pool, each sorted, do not depend on the
    order of the pool, up to the order in which they come. *)
Lemma combinations_nat_Permutation (pool1 pool2 : list string) (r : nat) :
  pool1 ≡ₚ pool2 →
  sorted <$> combinations_nat pool1 r ≡ₚ sorted <$> combinations_nat pool2 r.
Proof.
  intros Hp. revert r.
  induction Hp as [|x l1 l2 _ IH|x y l|l1 l2 l3 _ IH1 _ IH2]; intros r.
  - done.
  - destruct r as [|r]; [by rewrite !combinations_nat_0|].
    simpl. rewrite !fmap_app, <-!list_fmap_compose. f_equiv; [|apply IH].
    rewrite (list_fmap_ext (sorted ∘ cons x) ((λ s, sorted (x :: s)) ∘ sorted)
               (combinations_nat l1 r))
      by (intros; apply sorted_cons).
    rewrite (list_fmap_ext (sorted ∘ cons x) ((λ s, sorted (x :: s)) ∘ sorted)
               (combinations_nat l2 r))
      by (intros; apply sorted_cons).
    rewrite !list_fmap_compose. by rewrite (IH r).
  - assert (∀ cs : list (list string),
      sorted <$> (cons y <$> (cons x <$> cs)) =
      sorted <$> (cons x <$> (cons y <$> cs))) as Hswap.
    { intros cs. rewrite <-!list_fmap_compose. apply list_fmap_ext.
      intros _ c _. simpl. apply sorted_proper, perm_swap. }
    destruct r as [|[|r]]; [done|..]; simpl;
      rewrite ?combinations_nat_0; csimpl;
      rewrite ?fmap_app, ?Hswap.
    + apply perm_swap.
    + rewrite !(assoc_L (++)). f_equiv.
      rewrite <-!(assoc_L (++)). f_equiv. apply Permutation_app_comm.
  - by rewrite IH1.
Qed.

End enumeration.

(** ** [get_result] *)

Section results.

Lemma grouped_rows {A V} (f : A → V * Qc) (combos : list A) :
  let best := foldl (λ best c, dict_setdefault_append best (f c).2 (f c).1)
                    [] combos in
  NoDup best.*1 ∧ rows_of best ≡ₚ f <$> combos.
Proof.
  induction combos as [|c combos [IHnd IHrows]] using rev_ind; simpl.
  - split; [constructor|done].
  - rewrite foldl_app. simpl. split.
    + by apply dict_setdefault_append_NoDup.
    + rewrite rows_of_setdefault_append, IHrows, fmap_app. simpl.
      by destruct (f c).
Qed.

Lemma set_iter_NoDup `{SetIteration} (s : gset Candidate) : NoDup (set_iter s).
Proof. rewrite set_iter_perm. apply NoDup_elements. Qed.

Lemma set_iter_length `{SetIteration} (s : gset Candidate) :
  length (set_iter s) = size s.
Proof. by rewrite set_iter_perm. Qed.

(** [get_result] reads [self] and writes nothing. *)
Lemma get_result_state `{SetIteration} (e : Election) : (get_result e).2 = e.
Proof.
  unfold get_result. run_M.
  repeat match goal with
         | |- context [match ?r with Ok _ => _ | Err _ => _ end] =>
             destruct r; simpl
         end; done.
Qed.

(** A negative size stops [get_result] where it creates the iterator. *)
Lemma get_result_negative `{SetIteration} (e : Election) :
  committee_size e < 0 → get_result e = (Err ValueError, e).
Proof.
  intros Hneg. unfold get_result, combinations. run_M.
  destruct (Z.ltb_spec (committee_size e) 0) as [_|?]; [done|lia].
Qed.

(** From size 0 on and with a conforming method, [get_result] returns the
    rows of all committees of that size, sorted. *)
Lemma get_result_rows `{SetIteration} (e : Election) :
  Conforming (apportionment_method e) →
  0 ≤ committee_size e →
  ∃ rows,
    get_result e = (Ok (sort_values rows), e) ∧
    rows ≡ₚ row_of (apportionment_method e) (ballots e) <$>
              combinations_nat (set_iter (candidate_universe e))
                               (Z.to_nat (committee_size e)).
Proof.
  intros Hconf Hsize. unfold get_result, combinations. run_M.
  destruct (Z.ltb_spec (committee_size e) 0) as [?|_]; [lia|]. simpl.
  rewrite best_committee_candidates_loop_Ok by done. simpl.
  fold (candidate_universe e).
  set (combos := combinations_nat _ _).
  destruct (grouped_rows (row_of (apportionment_method e) (ballots e)) combos)
    as [Hnd Hrows].
  set (best := foldl _ _ _) in *.
  assert (sorted_reverse best.*1 ≡ₚ best.*1) as Hkeys
    by apply merge_sort_Permutation.
  assert (Forall (λ k, k ∈ best.*1) (sorted_reverse best.*1)) as Hall.
  { apply Forall_forall. intros k. by rewrite Hkeys. }
  rewrite mapM_dict_getitem, mapM_dict_getitem_replicate by done. simpl.
  destruct (columns_zip best (sorted_reverse best.*1)) as [Hlen Hzip].
  unfold new_DataFrame. rewrite decide_True by done. simpl.
  eexists. split; [done|].
  rewrite Hzip, Hkeys, rows_of_via_keys by done. done.
Qed.

End results.

(** ** The result of an election *)

Section election_result.

Lemma elem_of_sort_values (rows : DataFrame) (r : list Candidate * Qc) :
  r ∈ sort_values rows ↔ r ∈ rows.
Proof. unfold sort_values. by rewrite merge_sort_Permutation. Qed.



(** C2: the rows that [get_result] returns are in the order of
    [row_le], by score from high to low and, at equal scores, by committee
    tuple from low to high; the committee of a row is a tuple of
    [committee_size] candidates, all different and in ascending order, and
    no score is negative. *)
Theorem get_result_sorted `{SetIteration} (e : Election) :
  Conforming (apportionment_method e) →
  0 ≤ committee_size e →
  ∃ df,
    get_result e = (Ok df, e) ∧
    StronglySorted row_le df ∧
    (∀ i j r1 r2,
       (i < j)%nat → df !! i = Some r1 → df !! j = Some r2 →
       (r2.2 < r1.2)%Qc ∨ (r1.2 = r2.2 ∧ tuple_compare r1.1 r2.1 ≠ Gt)) ∧
    (∀ committee score,
       (committee, score) ∈ df →
       Z.of_nat (length committee) = committee_size e ∧
       NoDup committee ∧
       StronglySorted str_le committee ∧
       (0 ≤ score)%Qc).
Proof.
  intros Hconf Hsize.
  destruct (get_result_rows e Hconf Hsize) as (rows & Hres & Hrows).
  exists (sort_values rows).
  assert (StronglySorted row_le (sort_values rows)) as Hsorted
    by (apply StronglySorted_merge_sort; apply _).
  split_and!; [done..| |].
  - intros i j r1 r2 Hij H1 H2.
    apply (take_drop_middle _ _ _) in H1 as Hsplit.
    rewrite <-Hsplit in Hsorted.
    apply StronglySorted_app_1_r, StronglySorted_inv in Hsorted as [_ Hall].
    rewrite Forall_forall in Hall. apply (Hall r2).
    apply (list_elem_of_lookup_2 _ (j - S i)).
    rewrite lookup_drop. rewrite <-H2. f_equal. lia.
  - intros committee score.
    rewrite elem_of_sort_values, Hrows, list_elem_of_fmap.
    intros (c & [= -> ->] & [Hlen Hsub]%combinations_nat_elem_of).
    rewrite sorted_length, Hlen. split_and!; [lia| | |].
    + apply sorted_NoDup. eapply sublist_NoDup; [apply set_iter_NoDup|exact Hsub].
    + apply sorted_StronglySorted.
    + by apply committee_score_nonneg.
Qed.

End election_result.

(** ** Sizes out of range *)

Section sizes.
Context `{SetIteration} `{Allocator}.

(** The empty committee scores 0 under any method. *)
Lemma committee_score_loop_empty (method : ApportionmentMethod)
    (bs : dict Z (gset Candidate)) :
  committee_score_loop method bs (list_to_set []) = Ok 0%Qc.
Proof.
  unfold committee_score_loop.
  induction (bs.*2) as [|ballot l IH] using rev_ind; [done|].
  rewrite foldl_app, IH. simpl.
  rewrite intersection_empty_r_L. unfold len. rewrite size_empty. simpl. by rewrite Qcplus_0_l.
Qed.

Lemma get_result_size_0 (e : Election) :
  committee_size e = 0 → get_result e = (Ok [([], 0%Qc)], e).
Proof.
  intros Hsize. unfold get_result, combinations. run_M. rewrite Hsize. simpl.
  rewrite combinations_nat_0. unfold best_committee_candidates_loop. simpl.
  rewrite committee_score_loop_empty. simpl.
  reflexivity.
Qed.

Lemma get_result_size_too_large (e : Election) :
  Z.of_nat (size (candidate_universe e)) < committee_size e →
  get_result e = (Ok [], e).
Proof.
  intros Hsize. unfold get_result, combinations. run_M.
  destruct (Z.ltb_spec (committee_size e) 0) as [?|_]; [lia|]. simpl.
  fold (candidate_universe e).
  rewrite combinations_nat_too_many; [done|].
  rewrite set_iter_length. lia.
Qed.

Lemma as_ssize_t_in_range (r : Z) :
  - PY_SSIZE_T_MAX - 1 ≤ r → r ≤ PY_SSIZE_T_MAX → as_ssize_t r = Ok r.
Proof.
  intros Hlo Hhi. unfold as_ssize_t.
  destruct (Z.ltb_spec r (- PY_SSIZE_T_MAX - 1)); [lia|].
  destruct (Z.ltb_spec PY_SSIZE_T_MAX r); [lia|]. done.
Qed.

Lemma as_ssize_t_out_of_range (r : Z) :
  r < - PY_SSIZE_T_MAX - 1 ∨ PY_SSIZE_T_MAX < r → as_ssize_t r = Err OverflowError.
Proof.
  intros Hout. unfold as_ssize_t.
  destruct (Z.ltb_spec r (- PY_SSIZE_T_MAX - 1)); [done|].
  destruct (Z.ltb_spec PY_SSIZE_T_MAX r); [done|lia].
Qed.

Lemma PyMem_New_ssize_t_granted (n : Z) :
  n ≤ PY_SSIZE_T_MAX / 8 → malloc_succeeds (n * 8) = true →
  PyMem_New_ssize_t n = Ok ().
Proof.
  intros Hn Hgranted. unfold PyMem_New_ssize_t.
  destruct (Z.ltb_spec (PY_SSIZE_T_MAX / 8) n); [lia|]. by rewrite Hgranted.
Qed.

Lemma PyMem_New_ssize_t_refused (n : Z) :
  PY_SSIZE_T_MAX / 8 < n ∨ malloc_succeeds (n * 8) = false →
  PyMem_New_ssize_t n = Err MemoryError.
Proof.
  intros Hn. unfold PyMem_New_ssize_t.
  destruct (Z.ltb_spec (PY_SSIZE_T_MAX / 8) n); [done|].
  destruct Hn as [?|Hrefused]; [lia|]. by rewrite Hrefused.
Qed.

(** When the array of indexes is granted, neither the conversion nor the
    allocation is seen. *)
Lemma get_result_ssize_granted (e : Election) :
  0 ≤ committee_size e → committee_size e ≤ PY_SSIZE_T_MAX / 8 →
  malloc_succeeds (committee_size e * 8) = true →
  get_result_ssize e = get_result e.
Proof.
  intros Hlo Hhi Hgranted.
  assert (PY_SSIZE_T_MAX = 9223372036854775807) as Hmax by done.
  assert (PY_SSIZE_T_MAX / 8 = 1152921504606846975) as Hmax8 by done.
  unfold get_result_ssize, get_result, itertools_combinations.
  run_M. rewrite as_ssize_t_in_range by lia. simpl.
  destruct (Z.ltb_spec (committee_size e) 0) as [?|_]; [lia|].
  by rewrite PyMem_New_ssize_t_granted.
Qed.

Lemma get_result_ssize_negative (e : Election) :
  - PY_SSIZE_T_MAX - 1 ≤ committee_size e → committee_size e < 0 →
  get_result_ssize e = (Err ValueError, e).
Proof.
  intros Hlo Hneg.
  assert (PY_SSIZE_T_MAX = 9223372036854775807) as Hmax by done.
  assert (PY_SSIZE_T_MAX / 8 = 1152921504606846975) as Hmax8 by done.
  unfold get_result_ssize, itertools_combinations.
  run_M. rewrite as_ssize_t_in_range by lia. simpl.
  by destruct (Z.ltb_spec (committee_size e) 0) as [_|?]; [|lia].
Qed.

Lemma get_result_ssize_out_of_range (e : Election) :
  committee_size e < - PY_SSIZE_T_MAX - 1 ∨ PY_SSIZE_T_MAX < committee_size e →
  get_result_ssize e = (Err OverflowError, e).
Proof.
  intros Hout. unfold get_result_ssize, itertools_combinations.
  run_M. by rewrite as_ssize_t_out_of_range.
Qed.

Lemma get_result_ssize_refused (e : Election) :
  0 ≤ committee_size e → committee_size e ≤ PY_SSIZE_T_MAX →
  PY_SSIZE_T_MAX / 8 < committee_size e ∨
    malloc_succeeds (committee_size e * 8) = false →
  get_result_ssize e = (Err MemoryError, e).
Proof.
  intros Hlo Hhi Hrefused.
  unfold get_result_ssize, itertools_combinations.
  run_M. rewrite as_ssize_t_in_range by lia. simpl.
  destruct (Z.ltb_spec (committee_size e) 0) as [?|_]; [lia|].
  by rewrite PyMem_New_ssize_t_refused.
Qed.

(** C5, as the code has it: a [committee_size] outside the range of
    [Py_ssize_t] makes [get_result] raise [OverflowError]; a negative one
    within the range makes it raise [ValueError]; one from 0 on whose array
    of indexes is not granted (never above [PY_SSIZE_T_MAX / 8]) makes it
    raise [MemoryError]; with [committee_size] 0 it returns the one row of
    the empty committee, with score 0; with a [committee_size] above the
    number of candidates of the universe, when the array is granted, it
    returns no row.  The election is unchanged in every case. *)
Theorem get_result_ssize_policy (e : Election) :
  (committee_size e < - PY_SSIZE_T_MAX - 1 ∨ PY_SSIZE_T_MAX < committee_size e →
   get_result_ssize e = (Err OverflowError, e)) ∧
  (- PY_SSIZE_T_MAX - 1 ≤ committee_size e → committee_size e < 0 →
   get_result_ssize e = (Err ValueError, e)) ∧
  (0 ≤ committee_size e → committee_size e ≤ PY_SSIZE_T_MAX →
   PY_SSIZE_T_MAX / 8 < committee_size e ∨
     malloc_succeeds (committee_size e * 8) = false →
   get_result_ssize e = (Err MemoryError, e)) ∧
  (committee_size e = 0 → malloc_succeeds 0 = true →
   get_result_ssize e = (Ok [([], 0%Qc)], e)) ∧
  (Z.of_nat (size (candidate_universe e)) < committee_size e →
   committee_size e ≤ PY_SSIZE_T_MAX / 8 →
   malloc_succeeds (committee_size e * 8) = true →
   get_result_ssize e = (Ok [], e)).
Proof.
  assert (PY_SSIZE_T_MAX = 9223372036854775807) as Hmax by done.
  assert (PY_SSIZE_T_MAX / 8 = 1152921504606846975) as Hmax8 by done.
  split_and!.
  - apply get_result_ssize_out_of_range.
  - apply get_result_ssize_negative.
  - apply get_result_ssize_refused.
  - intros Hzero Hgranted. rewrite get_result_ssize_granted.
    + by apply get_result_size_0.
    + lia.
    + rewrite Hzero. done.
    + by rewrite Hzero.
  - intros Hlarge Hhi Hgranted. rewrite get_result_ssize_granted by (done || lia).
    by apply get_result_size_too_large.
Qed.

End sizes.

(** C5, as stated, fails at [committee_size] 0: [get_result] returns a row
    and raises nothing. *)
Lemma get_result_size_0_returns :
  let e := new_Election 0 SainteLagueApportionmentMethod None in
  committee_size e ≤ 0 ∧
  (@get_result elements_iteration e).1 = Ok [([], 0%Qc)] ∧
  (@get_result elements_iteration e).1 ≠ Err ValueError ∧
  (@get_result_ssize elements_iteration (allocator_up_to (2 ^ 30)) e).1 =
    Ok [([], 0%Qc)].
Proof. split_and!; [done|by vm_compute|by vm_compute|by vm_compute]. Qed.

Lemma get_result_ssize_policy_witness :
  let I := elements_iteration in
  let A := allocator_up_to (2 ^ 30) in
  let e (size : Z) := new_Election size SainteLagueApportionmentMethod None in
  get_result_ssize (e (2 ^ 63)) = (Err OverflowError, e (2 ^ 63)) ∧
  get_result_ssize (e (- 2 ^ 63 - 1)) = (Err OverflowError, e (- 2 ^ 63 - 1)) ∧
  get_result_ssize (e (- 2 ^ 63)) = (Err ValueError, e (- 2 ^ 63)) ∧
  get_result_ssize (e (-1)) = (Err ValueError, e (-1)) ∧
  get_result_ssize (e (2 ^ 63 - 1)) = (Err MemoryError, e (2 ^ 63 - 1)) ∧
  get_result_ssize (e (2 ^ 60)) = (Err MemoryError, e (2 ^ 60)) ∧
  get_result_ssize (e (2 ^ 28)) = (Err MemoryError, e (2 ^ 28)) ∧
  get_result_ssize (e 0) = (Ok [([], 0%Qc)], e 0) ∧
  get_result_ssize (e 1) = (Ok [], e 1).
Proof.
  intros I A e. split_and!.
  - apply (proj1 (get_result_ssize_policy (e (2 ^ 63)))). right. by vm_compute.
  - apply (proj1 (get_result_ssize_policy (e (- 2 ^ 63 - 1)))). left. by vm_compute.
  - apply (proj1 (proj2 (get_result_ssize_policy (e (- 2 ^ 63)))));
      by vm_compute.
  - apply (proj1 (proj2 (get_result_ssize_policy (e (-1))))); by vm_compute.
  - apply (proj1 (proj2 (proj2 (get_result_ssize_policy (e (2 ^ 63 - 1))))));
      [by vm_compute..|left; by vm_compute].
  - apply (proj1 (proj2 (proj2 (get_result_ssize_policy (e (2 ^ 60))))));
      [by vm_compute..|left; by vm_compute].
  - apply (proj1 (proj2 (proj2 (get_result_ssize_policy (e (2 ^ 28))))));
      [by vm_compute..|right; by vm_compute].
  - apply (proj1 (proj2 (proj2 (proj2 (get_result_ssize_policy (e 0)))))); reflexivity.
  - apply (proj2 (proj2 (proj2 (proj2 (get_result_ssize_policy (e 1))))));
      by vm_compute.
Defined.

(** ** Repeated calls *)

Section repeated_calls.

Lemma row_of_sorted (method : ApportionmentMethod)
    (bs : dict Z (gset Candidate)) (c : list Candidate) :
  row_of method bs c =
  (λ t, (t, committee_score method bs (list_to_set t))) (sorted c).
Proof. unfold row_of. simpl. by rewrite list_to_set_sorted. Qed.

(** The rows do not depend on the order in which the set of candidates is
    iterated. *)
Lemma rows_order_independent (I1 I2 : SetIteration)
    (method : ApportionmentMethod) (bs : dict Z (gset Candidate))
    (universe : gset Candidate) (r : nat) :
  row_of method bs <$> combinations_nat (@set_iter I1 universe) r ≡ₚ
  row_of method bs <$> combinations_nat (@set_iter I2 universe) r.
Proof.
  assert (∀ cs : list (list Candidate),
    row_of method bs <$> cs =
    (λ t, (t, committee_score method bs (list_to_set t))) <$> (sorted <$> cs))
    as Hrow.
  { intros cs. rewrite <-list_fmap_compose. apply list_fmap_ext.
    intros _ c _. apply row_of_sorted. }
  rewrite !Hrow. f_equiv.
  apply combinations_nat_Permutation.
  by rewrite !set_iter_perm.
Qed.

Lemma get_result_order_independent (I1 I2 : SetIteration) (e : Election) :
  Conforming (apportionment_method e) →
  (@get_result I1 e).1 = (@get_result I2 e).1.
Proof.
  intros Hconf. destruct (Z.lt_ge_cases (committee_size e) 0) as [Hneg|Hsize].
  { by rewrite !get_result_negative. }
  destruct (@get_result_rows I1 e Hconf Hsize) as (rows1 & -> & Hrows1).
  destruct (@get_result_rows I2 e Hconf Hsize) as (rows2 & -> & Hrows2).
  simpl. f_equal. unfold sort_values.
  apply (StronglySorted_unique_strong row_le).
  - intros r1 r2. rewrite !merge_sort_Permutation, Hrows1, Hrows2.
    rewrite !list_elem_of_fmap.
    intros (c1 & -> & _) (c2 & -> & _) H12 H21.
    rewrite !row_of_sorted.
    pose proof (row_le_antisym_committee _ _ H12 H21) as Heq. simpl in Heq.
    by rewrite Heq.
  - apply StronglySorted_merge_sort; apply _.
  - apply StronglySorted_merge_sort; apply _.
  - rewrite !merge_sort_Permutation, Hrows1, Hrows2.
    apply rows_order_independent.
Qed.

(** C9: a call of [get_result] leaves the election as it found it, a
    second call returns what the first returned, and so does a call that
    iterates the set of candidates in another order, provided the method
    conforms. *)
Theorem get_result_idempotent (I1 I2 : SetIteration) (e : Election) :
  let first := @get_result I1 e in
  first.2 = e ∧
  (@get_result I2 first.2).2 = e ∧
  (@get_result I1 first.2).1 = first.1 ∧
  (Conforming (apportionment_method e) → (@get_result I2 first.2).1 = first.1).
Proof.
  simpl. rewrite !get_result_state. split_and!; [done..|].
  intros Hconf. by apply get_result_order_independent.
Qed.

End repeated_calls.

(** The election of the example script: 20 committees, [(A, B, X)] first
    with [3 v(2) + 3 v(3) + v(1) = 48/5], whichever way the set of candidates
    is iterated. *)
Example example_election_result :
  ∃ df,
    (@get_result elements_iteration example_election).1 = Ok df ∧
    (@get_result reverse_iteration example_election).1 = Ok df ∧
    length df = 20%nat ∧
    head df = Some (["A"; "B"; "X"]%string, Q2Qc (48 # 5)).
Proof. eexists. split_and!; by vm_compute. Qed.


Lemma get_result_sorted_witness :
  let I := elements_iteration in
  let e := example_election in
  Conforming (apportionment_method e) ∧
  0 ≤ committee_size e ∧
  ∃ df,
    get_result e = (Ok df, e) ∧
    StronglySorted row_le df ∧
    (∀ i j r1 r2,
       (i < j)%nat → df !! i = Some r1 → df !! j = Some r2 →
       (r2.2 < r1.2)%Qc ∨ (r1.2 = r2.2 ∧ tuple_compare r1.1 r2.1 ≠ Gt)) ∧
    (∀ committee score,
       (committee, score) ∈ df →
       Z.of_nat (length committee) = committee_size e ∧
       NoDup committee ∧
       StronglySorted str_le committee ∧
       (0 ≤ score)%Qc).
Proof.
  intros I e.
  assert (Conforming (apportionment_method e)) as Hconf
    by exact SainteLague_conforming.
  assert (0 ≤ committee_size e) as Hsize by (vm_compute; discriminate).
  split_and!; [exact Hconf|exact Hsize|].
  exact (get_result_sorted e Hconf Hsize).
Defined.

Lemma get_result_idempotent_witness :
  let e := example_election in
  let first := @get_result elements_iteration e in
  Conforming (apportionment_method e) ∧
  first.2 = e ∧
  (@get_result reverse_iteration first.2).2 = e ∧
  (@get_result elements_iteration first.2).1 = first.1 ∧
  (@get_result reverse_iteration first.2).1 = first.1.
Proof.
  intros e first.
  assert (Conforming (apportionment_method e)) as Hconf
    by exact SainteLague_conforming.
  destruct (get_result_idempotent elements_iteration reverse_iteration e)
    as (H1 & H2 & H3 & H4).
  split_and!; [exact Hconf|exact H1|exact H2|exact H3|exact (H4 Hconf)].
Defined.

(** * Further properties *)

(** ** Weights of the built-in methods *)

Section weights.

Lemma Qcinv_antitone (a b : Qc) : (0 < a → a ≤ b → / b ≤ / a)%Qc.
Proof.
  intros Ha Hab.
  assert (0 < b)%Qc as Hb by (by apply Qclt_le_trans with a).
  assert (a ≠ 0%Qc) as Ha0 by (by apply not_eq_sym, Qclt_not_eq).
  assert (b ≠ 0%Qc) as Hb0 by (by apply not_eq_sym, Qclt_not_eq).
  apply (Qcmult_le_mono_pos_r _ _ (a * b)%Qc); [by apply Qcmult_pos_pos|].
  replace (/ b * (a * b))%Qc with a by (field; done).
  replace (/ a * (a * b))%Qc with b by (field; done).
  done.
Qed.

Lemma float_of_int_le (x y : Z) : x ≤ y → (float_of_int x ≤ float_of_int y)%Qc.
Proof. intros Hxy. exact (proj1 (Z2Qc_inj_le x y) Hxy). Qed.

Lemma float_of_int_pos (x : Z) : 0 < x → (0 < float_of_int x)%Qc.
Proof.
  intros Hx. unfold float_of_int.
  apply Z2Qc_inj_lt in Hx. by rewrite Z2Qc_inj_0 in Hx.
Qed.

(** The weight [1 / (2 i - 1)] of the Sainte-Laguë family: positive, at
    most 1, and smaller at the next index. *)
Lemma odd_weight_bounds (i : Z) :
  1 ≤ i →
  (0 < 1 / float_of_int (-1 + 2 * (i + 1)))%Qc ∧
  (1 / float_of_int (-1 + 2 * (i + 1)) ≤ 1 / float_of_int (-1 + 2 * i))%Qc ∧
  (1 / float_of_int (-1 + 2 * i) ≤ 1)%Qc.
Proof.
  intros Hi. unfold Qcdiv. rewrite !Qcmult_1_l. split_and!.
  - apply Qcinv_pos, float_of_int_pos. lia.
  - apply Qcinv_antitone; [apply float_of_int_pos|apply float_of_int_le]; lia.
  - apply Qcle_trans with (/ float_of_int 1)%Qc; [|by vm_compute].
    apply Qcinv_antitone; [apply float_of_int_pos|apply float_of_int_le]; lia.
Qed.

Lemma dv_tail (name : string) (method : ApportionmentMethod) (i : Z) :
  from_name name = Ok method → 2 ≤ i →
  @dv method i = Ok (1 / float_of_int (-1 + 2 * i))%Qc.
Proof.
  intros [[_ ->]|[[_ ->]|[_ ->]]]%from_name_Ok Hi; simpl;
    destruct (Z.ltb_spec i 0); try lia;
    destruct (Z.eqb_spec i 0); try lia;
    try destruct (Z.eqb_spec i 1); try lia; done.
Qed.

(** Every method that [from_name] returns has, at the indexes from 1 up to
    [2^1022], where the conversion of [2 i + 1] to [float] does not
    overflow, a weight that is positive, at most 1, and not smaller than
    the weight at the next index. *)
Theorem builtin_dv_positive_nonincreasing (name : string)
    (method : ApportionmentMethod) (i : Z) :
  from_name name = Ok method →
  1 ≤ i →
  i < 2 ^ 1022 →
  ∃ q q', @dv method i = Ok q ∧ @dv method (i + 1) = Ok q' ∧
          (0 < q')%Qc ∧ (q' ≤ q)%Qc ∧ (q ≤ 1)%Qc.
Proof.
  intros Hname Hi _.
  rewrite (dv_tail name method (i + 1)) by (done || lia).
  destruct (decide (i = 1)) as [->|Hne].
  - apply from_name_Ok in Hname as [[_ ->]|[[_ ->]|[_ ->]]];
      eexists _, _; (split_and!; [reflexivity|reflexivity|..]); by vm_compute.
  - rewrite (dv_tail name method i) by (done || lia).
    eexists _, _. split_and!; [done..| | |]; by apply odd_weight_bounds.
Qed.

Lemma builtin_dv_positive_nonincreasing_witness :
  ∃ q q', @dv SainteLague12ApportionmentMethod 1 = Ok q ∧
          @dv SainteLague12ApportionmentMethod (1 + 1) = Ok q' ∧
          (0 < q')%Qc ∧ (q' ≤ q)%Qc ∧ (q ≤ 1)%Qc.
Proof.
  apply (builtin_dv_positive_nonincreasing "sainte_lague_1_2"
           SainteLague12ApportionmentMethod 1); [reflexivity|lia|reflexivity].
Defined.

(** For a conforming method, [v] raises on the negative indexes only, and
    what it raises there is [ValueError]. *)
Theorem v_raises_iff_negative (method : ApportionmentMethod) (index : Z)
    (ex : exn) :
  Conforming method →
  @v method index = Err ex ↔ index < 0 ∧ ex = ValueError.
Proof.
  intros Hconf. split.
  - intros Hv. destruct (Z.lt_ge_cases index 0) as [Hneg|Hnn].
    + unfold v in Hv. destruct (Z.ltb_spec index 0); [|lia]. by simplify_eq.
    + destruct (v_defined method index Hnn) as (q & Hq & _). congruence.
  - intros [Hneg ->]. unfold v. by destruct (Z.ltb_spec index 0); [|lia].
Qed.

Lemma v_raises_iff_negative_witness :
  @v SainteLagueApportionmentMethod (-2) = Err ValueError ↔
  -2 < 0 ∧ ValueError = ValueError.
Proof.
  exact (v_raises_iff_negative SainteLagueApportionmentMethod (-2) ValueError
           SainteLague_conforming).
Defined.

(** [from_name] returns a method for the three keys of its dictionary and
    raises [KeyError] for every other name; methods returned for two
    different names differ in their first weight. *)
Theorem from_name_domain (name : string) :
  ((name ∈ ["sainte_lague"; "sainte_lague_1_2"; "sainte_lague_1_4"]%string) ∧
   ∃ method, from_name name = Ok method ∧
     ∀ name' method', from_name name' = Ok method' →
       (@dv method 1 = @dv method' 1 ↔ name = name')) ∨
  ((name ∉ ["sainte_lague"; "sainte_lague_1_2"; "sainte_lague_1_4"]%string) ∧
   from_name name = Err KeyError).
Proof.
  rewrite !elem_of_cons, elem_of_nil, from_name_spec.
  repeat case_decide; subst;
    [left; split; [tauto|]..|right; split; [tauto|done]];
    (eexists; split; [reflexivity|]);
    intros name' method' [[-> ->]|[[-> ->]|[-> ->]]]%from_name_Ok;
    (split; [by vm_compute|done]).
Qed.

End weights.

(** ** Casting ballots *)

Section casting.

Lemma sorted_set_iter `{SetIteration} (s : gset Candidate) :
  sorted (set_iter s) = sorted (elements s).
Proof. apply sorted_proper, set_iter_perm. Qed.

(** The state that [cast_ballot] leaves when the counter is not a key. *)
Lemma cast_ballot_state `{SetIteration} (approves : list Candidate) (e : Election) :
  counter e ∉ (ballots e).*1 →
  cast_ballot approves e =
    (Ok (counter e),
     mkElection (committee_size e) (apportionment_method e) (choices e)
       (ballots e ++ [(counter e, list_to_set approves)])
       (<[sorted (elements (list_to_set approves : gset Candidate)) :=
            default [] (ballot_to_indexes e !! sorted (elements (list_to_set approves : gset Candidate)))
              ++ [counter e]]> (ballot_to_indexes e))
       (counter e + 1)).
Proof.
  intros Hfresh. unfold cast_ballot, index_getitem. run_M.
  destruct (dict_contains (ballots e) (counter e)) eqn:E.
  { by apply dict_contains_spec in E. }
  rewrite dict_setitem_fresh by done. rewrite !sorted_set_iter.
  destruct (ballot_to_indexes e !! _) as [l|] eqn:El; simpl; [done|].
  by rewrite insert_insert_eq.
Qed.

Lemma cast_ballot_taken `{SetIteration} (approves : list Candidate) (e : Election) :
  counter e ∈ (ballots e).*1 → cast_ballot approves e = (Err RuntimeError, e).
Proof.
  intros Hin. unfold cast_ballot. run_M.
  by rewrite (proj2 (dict_contains_spec _ _) Hin).
Qed.

(** [cast_ballot] raises [RuntimeError], and leaves the election as it is,
    when the counter is already an identity of the store; otherwise it
    returns the counter.  It raises nothing else. *)
Theorem cast_ballot_guard `{SetIteration} (approves : list Candidate)
    (e : Election) :
  ((counter e ∈ (ballots e).*1) ∧
   cast_ballot approves e = (Err RuntimeError, e)) ∨
  ((counter e ∉ (ballots e).*1) ∧
   (cast_ballot approves e).1 = Ok (counter e)).
Proof.
  destruct (decide (counter e ∈ (ballots e).*1)) as [Hin|Hnin].
  - left. split; [done|]. by apply cast_ballot_taken.
  - right. split; [done|]. by rewrite cast_ballot_state.
Qed.

(** What is stored depends on the candidates approved, not on their order
    or repetition in the argument, nor on the order in which sets are
    iterated. *)
Theorem cast_ballot_set_semantics (I1 I2 : SetIteration)
    (approves1 approves2 : list Candidate) (e : Election) :
  (∀ x, x ∈ approves1 ↔ x ∈ approves2) →
  @cast_ballot I1 approves1 e = @cast_ballot I2 approves2 e.
Proof.
  intros Hsame.
  assert (list_to_set approves1 =@{gset Candidate} list_to_set approves2) as Hset.
  { apply set_eq. intros x. by rewrite !elem_of_list_to_set. }
  destruct (decide (counter e ∈ (ballots e).*1)) as [Hin|Hnin].
  - by rewrite !cast_ballot_taken.
  - by rewrite !cast_ballot_state, Hset.
Qed.

Lemma cast_ballot_set_semantics_witness :
  let e := new_Election 2 SainteLagueApportionmentMethod None in
  @cast_ballot elements_iteration ["A"; "B"; "A"]%string e =
  @cast_ballot reverse_iteration ["B"; "A"]%string e.
Proof.
  intros e. apply cast_ballot_set_semantics. intros x.
  rewrite !elem_of_cons, !elem_of_nil. tauto.
Defined.

Lemma dict_getitem_app_fresh {V} (d : dict Z V) (k k' : Z) (x : V) :
  k ∉ d.*1 →
  dict_getitem (d ++ [(k, x)]) k' =
  if decide (k = k') then Ok x else dict_getitem d k'.
Proof.
  induction d as [|[k0 y] d IH]; csimpl; intros Hnin.
  - by case_decide.
  - apply not_elem_of_cons in Hnin as [Hne Hnin]. rewrite IH by done.
    destruct (decide (k0 = k')) as [->|?]; [|done].
    by rewrite decide_False.
Qed.

(** After a [cast_ballot] that returns [i]: [ballots[i]] is the set of the
    approved candidates, every other subscript of [ballots] answers as
    before, the counter is one more, [i] is the last identity under the
    sorted tuple of the ballot in the index, and the other entries of the
    index are as before. *)
Theorem cast_ballot_stores `{SetIteration} (approves : list Candidate)
    (e : Election) :
  counter e ∉ (ballots e).*1 →
  let '(r, e') := cast_ballot approves e in
  let t := sorted (elements (list_to_set approves : gset Candidate)) in
  r = Ok (counter e) ∧
  counter e' = counter e + 1 ∧
  dict_getitem (ballots e') (counter e) = Ok (list_to_set approves : gset Candidate) ∧
  (∀ k, k ≠ counter e →
        dict_getitem (ballots e') k = dict_getitem (ballots e) k) ∧
  ballot_to_indexes e' !! t =
    Some (default [] (ballot_to_indexes e !! t) ++ [counter e]) ∧
  (∀ t', t' ≠ t → ballot_to_indexes e' !! t' = ballot_to_indexes e !! t').
Proof.
  intros Hfresh. rewrite cast_ballot_state by done. simpl. split_and!; [done..| | | |].
  - rewrite dict_getitem_app_fresh by done. by rewrite decide_True.
  - intros k Hk. rewrite dict_getitem_app_fresh by done. by rewrite decide_False.
  - by rewrite lookup_insert_eq.
  - intros t' Ht'. by rewrite lookup_insert_ne.
Qed.

Lemma cast_ballot_stores_witness :
  let I := elements_iteration in
  let e := new_Election 2 SainteLagueApportionmentMethod None in
  let approves := ["B"; "A"]%string in
  let '(r, e') := cast_ballot approves e in
  let t := sorted (elements (list_to_set approves : gset Candidate)) in
  r = Ok (counter e) ∧
  counter e' = counter e + 1 ∧
  dict_getitem (ballots e') (counter e) = Ok (list_to_set approves : gset Candidate) ∧
  (∀ k, k ≠ counter e →
        dict_getitem (ballots e') k = dict_getitem (ballots e) k) ∧
  ballot_to_indexes e' !! t =
    Some (default [] (ballot_to_indexes e !! t) ++ [counter e]) ∧
  (∀ t', t' ≠ t → ballot_to_indexes e' !! t' = ballot_to_indexes e !! t').
Proof.
  intros I e approves.
  apply (cast_ballot_stores approves e). simpl. apply not_elem_of_nil.
Defined.

End casting.

(** ** The store over a sequence of calls *)

Section store_history.
Context `{SetIteration}.

Lemma identities_of_snoc (t : list Candidate) (bs : dict Z (gset Candidate))
    (i : Z) (b : gset Candidate) :
  identities_of t (bs ++ [(i, b)]) =
  identities_of t bs ++ (if decide (sorted (elements b) = t) then [i] else []).
Proof.
  unfold identities_of. rewrite filter_app, fmap_app. f_equal.
  case_decide.
  - by rewrite filter_cons_True.
  - by rewrite filter_cons_False.
Qed.

Lemma cast_ballot_consistent (approves : list Candidate) (e : Election) :
  store_consistent e →
  ∃ e', cast_ballot approves e = (Ok (counter e), e') ∧
        store_consistent e' ∧
        ballots e' = ballots e ++ [(counter e, list_to_set approves)] ∧
        counter e' = counter e + 1 ∧
        committee_size e' = committee_size e ∧
        apportionment_method e' = apportionment_method e ∧
        choices e' = choices e.
Proof.
  intros (Hkeys & Hnn & Hix).
  assert (counter e ∉ (ballots e).*1) as Hfresh.
  { rewrite Hkeys, elem_of_seqZ. lia. }
  rewrite cast_ballot_state by done. eexists. split; [done|].
  split_and!; try done. unfold store_consistent. simpl. split_and!; [|lia|].
  - rewrite fmap_app, Hkeys, (seqZ_app 0 (counter e) 1) by lia.
    simpl; repeat f_equal; lia.
  - intros t. rewrite identities_of_snoc, <-Hix.
    set (sig := sorted (elements (list_to_set approves))).
    destruct (decide (sig = t)) as [<-|Hne].
    + by rewrite lookup_insert_eq.
    + rewrite lookup_insert_ne by done. by rewrite app_nil_r.
Qed.

Lemma run_calls_cons (check : ballot_or_int → result bool) (c : call)
    (cs : list call) (e : Election) :
  run_calls check (c :: cs) e =
  let '(o, e1) := perform check c e in
  let '(os, e2) := run_calls check cs e1 in (o :: os, e2).
Proof. done. Qed.

(** A call of [remove_ballot] raises [TypeError] and changes nothing. *)
Lemma perform_remove_ballot (ballot : ballot_or_int) (e : Election) :
  perform (λ b, isinstance b Ballot) (call_remove_ballot ballot) e =
  (raised TypeError, e).
Proof.
  unfold perform.
  change (remove_ballot_with (λ b, isinstance b Ballot) ballot e)
    with (remove_ballot ballot e).
  by rewrite remove_ballot_raises.
Qed.

Lemma run_calls_consistent (cs : list call) (e : Election) :
  store_consistent e →
  let e' := (run_calls (λ b, isinstance b Ballot) cs e).2 in
  store_consistent e' ∧
  (ballots e').*2 = (ballots e).*2 ++ (list_to_set <$> cast_arguments cs) ∧
  counter e' = counter e + Z.of_nat (length (cast_arguments cs)) ∧
  committee_size e' = committee_size e ∧
  apportionment_method e' = apportionment_method e ∧
  choices e' = choices e.
Proof.
  revert e. induction cs as [|c cs IH]; intros e Hcons.
  - simpl. rewrite app_nil_r. split_and!; try done. lia.
  - rewrite run_calls_cons. destruct c as [approves|ballot].
    + unfold perform.
      destruct (cast_ballot_consistent approves e Hcons)
        as (e1 & -> & Hcons1 & Hbs & Hc & Hsize & Hmethod & Hchoices).
      specialize (IH e1 Hcons1).
      destruct (run_calls _ cs e1) as [os e2]. simpl in *.
      destruct IH as (? & -> & -> & -> & -> & ->).
      rewrite Hbs, fmap_app, <-(assoc_L (++)). split_and!; try done. lia.
    + rewrite perform_remove_ballot.
      specialize (IH e Hcons).
      by destruct (run_calls _ cs e) as [os e2].
Qed.

(** Over any sequence of calls on a fresh election, the calls of
    [remove_ballot] change nothing: the store holds the ballots cast, in the
    order of the calls, under the identities 0, 1, 2, ...; the counter is
    their number; the index lists under every sorted tuple the identities of
    the ballots that have it; and the configuration is as given. *)
Theorem store_after_calls (size : Z) (method : ApportionmentMethod)
    (eligible : option (gset Candidate)) (cs : list call) :
  let e := (run_calls (λ b, isinstance b Ballot) cs
              (new_Election size method eligible)).2 in
  let n := Z.of_nat (length (cast_arguments cs)) in
  (ballots e).*1 = seqZ 0 n ∧
  (ballots e).*2 = (list_to_set <$> cast_arguments cs) ∧
  counter e = n ∧
  (∀ t, default [] (ballot_to_indexes e !! t) = identities_of t (ballots e)) ∧
  committee_size e = size ∧
  apportionment_method e = method ∧
  choices e = eligible.
Proof.
  destruct (run_calls_consistent cs (new_Election size method eligible))
    as ((Hkeys & _ & Hix) & Hbs & Hc & Hsize & Hmethod & Hchoices).
  { split_and!; [done|done|]. intros t. simpl. by rewrite lookup_empty. }
  simpl in *. rewrite Hkeys, Hc. by split_and!.
Qed.

End store_history.

(** ** The committees of a result *)

Section committees.

Lemma StronglySorted_sublist {A} (R : relation A) (l k : list A) :
  sublist l k → StronglySorted R k → StronglySorted R l.
Proof.
  induction 1 as [|x l k Hsub IH|x l k Hsub IH]; intros Hk; [done|..].
  - apply StronglySorted_inv in Hk as [Hk Hx]. constructor; [auto|].
    eapply Forall_forall. intros y Hy. rewrite Forall_forall in Hx.
    apply Hx. by eapply elem_of_sublist.
  - apply StronglySorted_inv in Hk as [Hk _]. auto.
Qed.

Lemma sorted_id (l : list string) : StronglySorted str_le l → sorted l = l.
Proof.
  intros Hl. apply (StronglySorted_unique str_le);
    [apply sorted_StronglySorted|done|apply sorted_Permutation].
Qed.

(** A sorted list without repetition ascends strictly. *)
Lemma StronglySorted_strict (l : list string) :
  StronglySorted str_le l → NoDup l → StronglySorted (strict str_le) l.
Proof.
  induction 1 as [|x l _ IH Hx]; intros Hnd; [constructor|].
  apply NoDup_cons in Hnd as [Hnin Hnd]. constructor; [auto|].
  rewrite Forall_forall in Hx |- *. intros y Hy. split; [auto|].
  intros Hyx. assert (x = y) as -> by (apply (anti_symm str_le); auto). done.
Qed.

Lemma StronglySorted_strict_inv (l : list string) :
  StronglySorted (strict str_le) l → StronglySorted str_le l ∧ NoDup l.
Proof.
  induction 1 as [|x l _ [IH1 IH2] Hx]; [split; constructor|].
  rewrite Forall_forall in Hx. split.
  - constructor; [done|]. apply Forall_forall. intros y Hy. by apply Hx.
  - constructor; [|done]. intros Hin. by destruct (Hx x Hin) as [_ []].
Qed.

(** In a strictly ascending list, the sublists are the strictly ascending
    lists of its elements. *)
Lemma sublist_strictly_sorted (t pool : list string) :
  StronglySorted (strict str_le) pool →
  sublist t pool ↔ StronglySorted (strict str_le) t ∧ ∀ x, x ∈ t → x ∈ pool.
Proof.
  intros Hpool. split.
  - intros Hsub. split; [by eapply StronglySorted_sublist|].
    intros x Hx. by eapply elem_of_sublist.
  - revert t. induction Hpool as [|p pool _ IH Hp]; intros t [Ht Hin].
    { destruct t as [|x t]; [done|].
      specialize (Hin x (list_elem_of_here _ _)). by apply elem_of_nil in Hin. }
    destruct t as [|x t]; [apply sublist_nil_l|].
    apply StronglySorted_inv in Ht as [Ht Hx].
    rewrite Forall_forall in Hp, Hx.
    destruct (decide (x = p)) as [->|Hne].
    + apply sublist_skip, IH. split; [done|]. intros y Hy.
      specialize (Hin y (list_elem_of_further _ _ _ Hy)).
      apply elem_of_cons in Hin as [->|Hin]; [|done].
      by destruct (Hx p Hy) as [? []].
    + assert (x ∈ pool) as Hxpool.
      { specialize (Hin x (list_elem_of_here _ _)).
        by apply elem_of_cons in Hin as [?|?]. }
      apply sublist_cons, IH. split; [by constructor; [|apply Forall_forall]|].
      intros y Hy. specialize (Hin y Hy).
      apply elem_of_cons in Hin as [->|Hin]; [|done].
      destruct (Hp x Hxpool) as [Hpx Hnxp].
      apply elem_of_cons in Hy as [->|Hy]; [done|].
      by destruct (Hx p Hy) as [? _].
Qed.

(** Every sublist of the pool is one of its combinations. *)
Lemma combinations_nat_complete {A} (pool c : list A) :
  sublist c pool → c ∈ combinations_nat pool (length c).
Proof.
  induction 1 as [|x c pool _ IH|x c pool _ IH]; simpl.
  - by apply list_elem_of_singleton.
  - apply elem_of_app. left. by apply list_elem_of_fmap_2.
  - destruct c as [|y c]; [rewrite combinations_nat_0; by apply list_elem_of_singleton|].
    simpl in *. apply elem_of_app. by right.
Qed.

(** A pool without repetition has no combination twice. *)
Lemma combinations_nat_NoDup {A} (pool : list A) (r : nat) :
  NoDup pool → NoDup (combinations_nat pool r).
Proof.
  intros Hpool. revert r. induction Hpool as [|x pool Hnin _ IH]; intros [|r];
    simpl; try apply NoDup_singleton; [apply NoDup_nil; done|].
  apply NoDup_app. split_and!.
  - apply (NoDup_fmap_2 _), IH.
  - intros c (c' & -> & _)%list_elem_of_fmap [_ Hsub]%combinations_nat_elem_of.
    apply Hnin. eapply elem_of_sublist; [|exact Hsub]. by left.
  - apply IH.
Qed.

End committees.

(** ** The result in closed form *)

Section closed_form.

Lemma sorted_universe_Permutation (e : Election) :
  sorted_universe e ≡ₚ elements (candidate_universe e).
Proof. apply sorted_Permutation. Qed.

Lemma sorted_universe_strict (e : Election) :
  StronglySorted (strict str_le) (sorted_universe e).
Proof.
  apply StronglySorted_strict; [apply sorted_StronglySorted|].
  rewrite sorted_universe_Permutation. apply NoDup_elements.
Qed.

Lemma elem_of_sorted_universe (e : Election) (x : Candidate) :
  x ∈ sorted_universe e ↔ x ∈ candidate_universe e.
Proof. by rewrite sorted_universe_Permutation, elem_of_elements. Qed.

Lemma sorted_universe_length (e : Election) :
  length (sorted_universe e) = size (candidate_universe e).
Proof. by rewrite sorted_universe_Permutation. Qed.

Lemma combinations_sorted_universe (e : Election) (r : nat) :
  sorted <$> combinations_nat (sorted_universe e) r =
  combinations_nat (sorted_universe e) r.
Proof.
  rewrite <-(list_fmap_id (combinations_nat _ _)) at 2.
  apply list_fmap_ext. intros i c Hc. simpl. apply sorted_id.
  apply list_elem_of_lookup_2, combinations_nat_elem_of in Hc as [_ Hsub].
  eapply StronglySorted_sublist; [exact Hsub|].
  apply StronglySorted_strict_inv, sorted_universe_strict.
Qed.

Lemma canonical_rows_committees (e : Election) :
  (canonical_rows e).*1 =
  combinations_nat (sorted_universe e) (Z.to_nat (committee_size e)).
Proof.
  unfold canonical_rows. rewrite <-list_fmap_compose.
  rewrite <-(list_fmap_id (combinations_nat _ _)) at 2.
  by apply list_fmap_ext.
Qed.

(** [get_result] returns the rows of the committees of the sorted universe,
    sorted, however the set of candidates is iterated. *)
Lemma get_result_canonical `{SetIteration} (e : Election) :
  Conforming (apportionment_method e) →
  0 ≤ committee_size e →
  get_result e = (Ok (sort_values (canonical_rows e)), e).
Proof.
  intros Hconf Hsize.
  destruct (get_result_rows e Hconf Hsize) as (rows & -> & Hrows).
  do 2 f_equal. unfold sort_values.
  assert (rows ≡ₚ canonical_rows e) as Hperm.
  { rewrite Hrows. unfold canonical_rows.
    rewrite <-combinations_sorted_universe.
    rewrite (combinations_nat_Permutation (sorted_universe e)
               (set_iter (candidate_universe e)))
      by (by rewrite sorted_universe_Permutation, set_iter_perm).
    rewrite <-list_fmap_compose. apply reflexive_eq.
    apply list_fmap_ext. intros _ c _. apply row_of_sorted. }
  apply (StronglySorted_unique_strong row_le).
  - intros r1 r2. rewrite !merge_sort_Permutation, Hperm.
    unfold canonical_rows. rewrite !list_elem_of_fmap.
    intros (t1 & -> & _) (t2 & -> & _) H12 H21.
    pose proof (row_le_antisym_committee _ _ H12 H21) as Heq. simpl in Heq.
    by rewrite Heq.
  - apply StronglySorted_merge_sort; apply _.
  - apply StronglySorted_merge_sort; apply _.
  - by rewrite !merge_sort_Permutation.
Qed.

Lemma elem_of_sort_values_canonical (e : Election) (c : list Candidate) (s : Qc) :
  (c, s) ∈ sort_values (canonical_rows e) ↔
  c ∈ combinations_nat (sorted_universe e) (Z.to_nat (committee_size e)) ∧
  s = committee_score (apportionment_method e) (ballots e) (list_to_set c).
Proof.
  rewrite elem_of_sort_values. unfold canonical_rows.
  rewrite list_elem_of_fmap. split.
  - by intros (t & [= -> ->] & Ht).
  - intros [Hc ->]. by exists c.
Qed.

(** The committees of a strictly ascending pool, by what they are. *)
Lemma elem_of_combinations_sorted_universe (e : Election) (t : list Candidate)
    (r : nat) :
  t ∈ combinations_nat (sorted_universe e) r ↔
  length t = r ∧ StronglySorted (strict str_le) t ∧
  ∀ x, x ∈ t → x ∈ candidate_universe e.
Proof.
  split.
  - intros [Hlen Hsub]%combinations_nat_elem_of.
    apply sublist_strictly_sorted in Hsub as [Ht Hin];
      [|apply sorted_universe_strict].
    split_and!; [done..|]. intros x Hx. by apply elem_of_sorted_universe, Hin.
  - intros (<- & Ht & Hin). apply combinations_nat_complete.
    apply sublist_strictly_sorted; [apply sorted_universe_strict|].
    split; [done|]. intros x Hx. by apply elem_of_sorted_universe, Hin.
Qed.

(** [get_result] has one row for every set of [committee_size] candidates
    of the universe, and no other row: the committees of its rows are the
    strictly ascending tuples of [committee_size] candidates of the
    universe, each once. *)
Theorem get_result_enumerates `{SetIteration} (e : Election) :
  Conforming (apportionment_method e) →
  0 ≤ committee_size e →
  ∃ df,
    get_result e = (Ok df, e) ∧
    NoDup df.*1 ∧
    ∀ t, t ∈ df.*1 ↔
         Z.of_nat (length t) = committee_size e ∧
         StronglySorted (strict str_le) t ∧
         ∀ x, x ∈ t → x ∈ candidate_universe e.
Proof.
  intros Hconf Hsize. eexists. split; [by apply get_result_canonical|].
  assert ((sort_values (canonical_rows e)).*1 ≡ₚ
          combinations_nat (sorted_universe e) (Z.to_nat (committee_size e)))
    as Hperm.
  { unfold sort_values. by rewrite merge_sort_Permutation, canonical_rows_committees. }
  split.
  - rewrite Hperm. apply combinations_nat_NoDup.
    apply StronglySorted_strict_inv, sorted_universe_strict.
  - intros t. rewrite Hperm, elem_of_combinations_sorted_universe.
    split; intros (? & ? & ?); split_and!; try done; lia.
Qed.

Lemma get_result_enumerates_witness :
  let I := elements_iteration in
  let e := example_election in
  ∃ df,
    get_result e = (Ok df, e) ∧
    NoDup df.*1 ∧
    ∀ t, t ∈ df.*1 ↔
         Z.of_nat (length t) = committee_size e ∧
         StronglySorted (strict str_le) t ∧
         ∀ x, x ∈ t → x ∈ candidate_universe e.
Proof.
  intros I e.
  apply (get_result_enumerates e); [exact SainteLague_conforming|].
  vm_compute. discriminate.
Defined.

End closed_form.

(** ** Candidates, number of rows, bounds *)

Section rows.

Lemma elem_of_actual_choices_loop (bs : dict Z (gset Candidate)) (x : Candidate) :
  x ∈ actual_choices_loop bs ↔ ∃ i b, (i, b) ∈ bs ∧ x ∈ b.
Proof.
  unfold actual_choices_loop.
  induction bs as [|[i b] bs IH] using rev_ind.
  - simpl. rewrite elem_of_empty. split; [done|].
    by intros (i & b & ?%elem_of_nil & _).
  - rewrite fmap_app, foldl_app. simpl. rewrite elem_of_union, IH. split.
    + intros [(j & b' & Hin & Hx)|Hx].
      * exists j, b'. split; [|done]. apply elem_of_app. by left.
      * exists i, b. split; [|done]. apply elem_of_app. right. by left.
    + intros (j & b' & [Hin|Hin%list_elem_of_singleton]%elem_of_app & Hx).
      * left. by exists j, b'.
      * right. by simplify_eq.
Qed.

Lemma elem_of_candidate_universe (e : Election) (x : Candidate) :
  x ∈ candidate_universe e ↔
  (∃ i b, (i, b) ∈ ballots e ∧ x ∈ b) ∧ (∀ c, choices e = Some c → x ∈ c).
Proof.
  unfold candidate_universe, restrict_choices.
  destruct (choices e) as [c|].
  - rewrite elem_of_intersection, elem_of_actual_choices_loop. split.
    + intros [? ?]. split; [done|]. by intros ? [= <-].
    + intros [? Hc]. split; [done|]. by apply Hc.
  - rewrite elem_of_actual_choices_loop. split; [|by intros [? _]].
    intros ?. split; [done|]. by intros ? [=].
Qed.

(** A candidate of a returned committee is approved on some stored ballot
    and, when [choices] is set, is one of the choices: candidates outside
    [choices] are dropped, and a choice that no ballot approves is never on
    a committee. *)
Theorem committee_candidates_eligible `{SetIteration} (e : Election) :
  Conforming (apportionment_method e) →
  0 ≤ committee_size e →
  ∃ df,
    get_result e = (Ok df, e) ∧
    ∀ committee score x,
      (committee, score) ∈ df → x ∈ committee →
      (∃ i b, (i, b) ∈ ballots e ∧ x ∈ b) ∧
      (∀ c, choices e = Some c → x ∈ c).
Proof.
  intros Hconf Hsize. eexists. split; [by apply get_result_canonical|].
  intros committee score x [Hc _]%elem_of_sort_values_canonical Hx.
  apply elem_of_combinations_sorted_universe in Hc as (_ & _ & Hin).
  by apply elem_of_candidate_universe, Hin.
Qed.

Lemma committee_candidates_eligible_witness :
  let I := elements_iteration in
  let e := example_election in
  ∃ df,
    get_result e = (Ok df, e) ∧
    ∀ committee score x,
      (committee, score) ∈ df → x ∈ committee →
      (∃ i b, (i, b) ∈ ballots e ∧ x ∈ b) ∧
      (∀ c, choices e = Some c → x ∈ c).
Proof.
  intros I e.
  apply (committee_candidates_eligible e); [exact SainteLague_conforming|].
  vm_compute. discriminate.
Defined.

Local Arguments fact : simpl never.

(** The number of combinations is the binomial coefficient. *)
Lemma combinations_nat_count {A} (pool : list A) (r : nat) :
  (r ≤ length pool)%nat →
  (length (combinations_nat pool r) * (fact r * fact (length pool - r)) =
   fact (length pool))%nat.
Proof.
  revert r. induction pool as [|x pool IH]; intros [|r] Hr; simpl in Hr |- *.
  - done.
  - lia.
  - change (fact 0) with 1%nat. lia.
  - rewrite length_app, length_fmap.
    pose proof (IH r ltac:(lia)) as IHa.
    change (fact (S r)) with (S r * fact r)%nat.
    change (fact (S (length pool))) with (S (length pool) * fact (length pool))%nat.
    destruct (decide (r = length pool)) as [->|Hne].
    + rewrite (combinations_nat_too_many pool (S (length pool))) by lia.
      simpl length. rewrite Nat.sub_diag in *. change (fact 0) with 1%nat in *.
      nia.
    + pose proof (IH (S r) ltac:(lia)) as IHb.
      replace (length pool - r)%nat with (S (length pool - S r)) in * by lia.
      set (m := (length pool - S r)%nat) in *.
      set (a := length (combinations_nat pool r)) in *.
      set (b := length (combinations_nat pool (S r))) in *.
      change (fact (S r)) with (S r * fact r)%nat in *.
      change (fact (S m)) with (S m * fact m)%nat in *.
      replace ((a + b) * (S r * fact r * (S m * fact m)))%nat
        with (S r * (a * (fact r * (S m * fact m))) +
              S m * (b * (S r * fact r * fact m)))%nat by lia.
      rewrite IHa, IHb.
      replace (S (length pool)) with (S r + S m)%nat by (unfold m; lia). lia.
Qed.

(** [get_result] returns as many rows as there are ways to choose
    [committee_size] of the candidates of the universe: with [k] the size
    and [n] the number of candidates, [rows * k! * (n - k)! = n!]. *)
Theorem get_result_row_count `{SetIteration} (e : Election) :
  Conforming (apportionment_method e) →
  0 ≤ committee_size e →
  committee_size e ≤ Z.of_nat (size (candidate_universe e)) →
  ∃ df,
    get_result e = (Ok df, e) ∧
    let k := Z.to_nat (committee_size e) in
    let n := size (candidate_universe e) in
    (length df * (fact k * fact (n - k)) = fact n)%nat.
Proof.
  intros Hconf Hsize Hle. eexists. split; [by apply get_result_canonical|].
  simpl. unfold sort_values, canonical_rows.
  rewrite merge_sort_Permutation, length_fmap, <-sorted_universe_length.
  apply combinations_nat_count. rewrite sorted_universe_length. lia.
Qed.

Lemma get_result_row_count_witness :
  let I := elements_iteration in
  let e := example_election in
  ∃ df,
    get_result e = (Ok df, e) ∧
    let k := Z.to_nat (committee_size e) in
    let n := size (candidate_universe e) in
    (length df * (fact k * fact (n - k)) = fact n)%nat.
Proof.
  intros I e.
  apply (get_result_row_count e); [exact SainteLague_conforming|..];
    vm_compute; discriminate.
Defined.

End rows.

(** ** Scores *)

Section scores.

(** The first row is a winner: no row has a higher score, and among the
    rows of that score its committee is the least tuple. *)
Theorem first_row_wins `{SetIteration} (e : Election) :
  Conforming (apportionment_method e) →
  0 ≤ committee_size e →
  ∃ df,
    get_result e = (Ok df, e) ∧
    ∀ winner top committee score,
      head df = Some (winner, top) →
      (committee, score) ∈ df →
      (score ≤ top)%Qc ∧ (score = top → tuple_compare winner committee ≠ Gt).
Proof.
  intros Hconf Hsize. eexists. split; [by apply get_result_canonical|].
  intros winner top committee score Hhead Hin.
  assert (StronglySorted row_le (sort_values (canonical_rows e))) as Hsorted
    by (apply StronglySorted_merge_sort; apply _).
  destruct (sort_values (canonical_rows e)) as [|r df]; [done|].
  simpl in Hhead. simplify_eq.
  apply StronglySorted_inv in Hsorted as [_ Hall].
  rewrite Forall_forall in Hall.
  apply elem_of_cons in Hin as [[= -> ->]|Hin].
  - split; [apply Qcle_refl|]. intros _. by rewrite tuple_compare_refl.
  - destruct (Hall _ Hin) as [Hlt|[Heq Hle]]; simpl in *.
    + split; [by apply Qclt_le_weak|]. intros ->.
      by destruct (Qclt_not_eq _ _ Hlt).
    + subst. split; [apply Qcle_refl|done].
Qed.

Lemma first_row_wins_witness :
  let I := elements_iteration in
  let e := example_election in
  ∃ df,
    get_result e = (Ok df, e) ∧
    ∀ winner top committee score,
      head df = Some (winner, top) →
      (committee, score) ∈ df →
      (score ≤ top)%Qc ∧ (score = top → tuple_compare winner committee ≠ Gt).
Proof.
  intros I e.
  apply (first_row_wins e); [exact SainteLague_conforming|].
  vm_compute. discriminate.
Defined.

End scores.

(** ** The result and the ballots *)

Section ballots_and_result.

Lemma committee_score_snoc (method : ApportionmentMethod)
    (bs : dict Z (gset Candidate)) (i : Z) (b committee : gset Candidate) :
  committee_score method (bs ++ [(i, b)]) committee =
  (committee_score method bs committee + v_value method (len (b ∩ committee)))%Qc.
Proof.
  unfold committee_score, ballot_weights. rewrite !fmap_app. simpl.
  apply fsum_snoc.
Qed.

Lemma canonical_rows_ext (e1 e2 : Election) :
  committee_size e1 = committee_size e2 →
  apportionment_method e1 = apportionment_method e2 →
  candidate_universe e1 = candidate_universe e2 →
  (∀ t, (∀ x, x ∈ t → x ∈ candidate_universe e1) →
        committee_score (apportionment_method e1) (ballots e1) (list_to_set t) =
        committee_score (apportionment_method e1) (ballots e2) (list_to_set t)) →
  canonical_rows e1 = canonical_rows e2.
Proof.
  intros Hsize Hmethod Huniverse Hscore.
  unfold canonical_rows, sorted_universe.
  rewrite <-Hsize, <-Hmethod, <-Huniverse.
  apply list_fmap_ext. intros i t Ht. f_equal. apply Hscore.
  apply list_elem_of_lookup_2 in Ht.
  by apply (elem_of_combinations_sorted_universe e1) in Ht as (_ & _ & ?).
Qed.

(** A ballot that approves no candidate, or only candidates outside
    [choices], changes no row of the result. *)
Theorem cast_ballot_outside_choices `{SetIteration} (approves : list Candidate)
    (e : Election) :
  Conforming (apportionment_method e) →
  (∀ x, x ∈ approves → ∃ c, choices e = Some c ∧ x ∉ c) →
  (get_result (cast_ballot approves e).2).1 = (get_result e).1.
Proof.
  intros Hconf Hout.
  destruct (decide (counter e ∈ (ballots e).*1)) as [Hin|Hfresh].
  { by rewrite cast_ballot_taken. }
  rewrite cast_ballot_state by done. simpl.
  set (e' := mkElection _ _ _ _ _ _).
  destruct (Z.lt_ge_cases (committee_size e) 0) as [Hneg|Hnn].
  { by rewrite !get_result_negative. }
  rewrite !get_result_canonical by done. simpl. do 2 f_equal.
  assert (∀ x, x ∈ candidate_universe e →
               x ∉ (list_to_set approves : gset Candidate)) as Hdisjoint.
  { intros x [_ Hx]%elem_of_candidate_universe Happ%elem_of_list_to_set.
    destruct (Hout x Happ) as (c & Hc & Hnin). by apply Hnin, Hx. }
  symmetry. apply canonical_rows_ext; [done..| |].
  - apply set_eq. intros x. rewrite !elem_of_candidate_universe. simpl.
    split; intros [(i & b & Hin & Hx) Hc]; (split; [|done]).
    + exists i, b. split; [|done]. apply elem_of_app. by left.
    + apply elem_of_app in Hin as [Hin|Hin%list_elem_of_singleton]; [by eauto|].
      simplify_eq. apply elem_of_list_to_set in Hx.
      destruct (Hout x Hx) as (c & Hc' & Hnin). by destruct (Hnin (Hc c Hc')).
  - intros t Ht. simpl. rewrite committee_score_snoc.
    replace (list_to_set approves ∩ list_to_set t) with (∅ : gset Candidate).
    + unfold len. rewrite size_empty. change (v_value _ _) with 0%Qc.
      by rewrite Qcplus_0_r.
    + symmetry. apply elem_of_equiv_empty_L. intros x [Hx Hxt]%elem_of_intersection.
      apply elem_of_list_to_set in Hxt. by apply (Hdisjoint x (Ht x Hxt)).
Qed.

Lemma cast_ballot_outside_choices_witness :
  let I := elements_iteration in
  let e := example_election in
  (get_result (cast_ballot [] e).2).1 = (get_result e).1.
Proof.
  intros I e.
  apply (cast_ballot_outside_choices [] e); [exact SainteLague_conforming|].
  intros x Hx. by apply elem_of_nil in Hx.
Defined.

(** Casting a ballot keeps every committee of the result and adds to its
    score the weight of the new ballot, [v(len(ballot & committee))], which
    is not negative. *)
Theorem cast_ballot_adds_weight `{SetIteration} (approves : list Candidate)
    (e : Election) :
  Conforming (apportionment_method e) →
  counter e ∉ (ballots e).*1 →
  0 ≤ committee_size e →
  let e' := (cast_ballot approves e).2 in
  ∃ df df',
    get_result e = (Ok df, e) ∧
    get_result e' = (Ok df', e') ∧
    ∀ committee score,
      (committee, score) ∈ df →
      ∃ w, @v (apportionment_method e)
              (len (list_to_set approves ∩ list_to_set committee)) = Ok w ∧
           (0 ≤ w)%Qc ∧
           (committee, (score + w)%Qc) ∈ df'.
Proof.
  intros Hconf Hfresh Hsize. rewrite cast_ballot_state by done. simpl.
  set (e' := mkElection _ _ _ _ _ _).
  eexists _, _. split_and!; [by apply get_result_canonical..|].
  intros committee score [Hc ->]%elem_of_sort_values_canonical.
  eexists. split_and!.
  - apply v_value_Ok; [done|apply len_nonneg].
  - apply v_value_nonneg; [done|apply len_nonneg].
  - apply elem_of_sort_values_canonical. simpl. split.
    + apply elem_of_combinations_sorted_universe in Hc as (? & ? & Hin).
      apply elem_of_combinations_sorted_universe. split_and!; [done..|].
      intros x [(i & b & Hb & Hx) Hch]%Hin%elem_of_candidate_universe.
      apply elem_of_candidate_universe. simpl. split; [|done].
      exists i, b. split; [|done]. apply elem_of_app. by left.
    + by rewrite committee_score_snoc.
Qed.

Lemma cast_ballot_adds_weight_witness :
  let I := elements_iteration in
  let e := one_ballot_election in
  let approves := ["A"; "B"]%string in
  let e' := (cast_ballot approves e).2 in
  ∃ df df',
    get_result e = (Ok df, e) ∧
    get_result e' = (Ok df', e') ∧
    ∀ committee score,
      (committee, score) ∈ df →
      ∃ w, @v (apportionment_method e)
              (len (list_to_set approves ∩ list_to_set committee)) = Ok w ∧
           (0 ≤ w)%Qc ∧
           (committee, (score + w)%Qc) ∈ df'.
Proof.
  intros I e approves.
  refine (cast_ballot_adds_weight approves e SainteLague_conforming _ _).
  - unfold e, one_ballot_election. simpl.
    intros Hin%list_elem_of_singleton. discriminate.
  - unfold e, one_ballot_election. simpl. lia.
Defined.

(** In that witness the result has the row of [("A",)] before the cast,
    with score 1, and the rows of [("A",)] and [("B",)] after it, with
    scores 2 and 1. *)
Example cast_ballot_adds_weight_rows :
  let I := elements_iteration in
  let e := one_ballot_election in
  (get_result e).1 = Ok [(["A"]%string, 1%Qc)] ∧
  (get_result (cast_ballot ["A"; "B"]%string e).2).1 =
    Ok [(["A"]%string, Q2Qc 2); (["B"]%string, 1%Qc)].
Proof. split; by vm_compute. Qed.

End ballots_and_result.

(** ** The cumulative weight in binary64 *)

Section binary64.

Lemma elem_of_range (a b i : Z) : i ∈ range a b ↔ a ≤ i ∧ i < b.
Proof.
  unfold range. rewrite list_elem_of_In, in_map_iff. split.
  - intros (n & <- & Hn%in_seq). lia.
  - intros [Ha Hb]. exists (Z.to_nat (i - a)). split; [lia|].
    apply in_seq. lia.
Qed.

Lemma sum64_state_snoc (dv : Z → result float) (l : list Z) (i : Z) :
  sum64_state dv (l ++ [i]) =
  (st ← sum64_state dv l; x ← dv i; Ok (sum_step st x)).
Proof. unfold sum64_state. by rewrite foldl_app. Qed.

Lemma from_name64_Ok (name : string) (dv : Z → result float) :
  from_name64 name = Ok dv →
  dv = SainteLague_dv64 ∨ dv = SainteLague12_dv64 ∨ dv = SainteLague14_dv64.
Proof.
  unfold from_name64, from_name_table64. simpl.
  repeat case_decide; intros ?; simplify_eq; auto.
Qed.

(** [v(index)] continues the summation of [v(index - 1)] with
    [dv(index)], for any [dv]. *)
Lemma v64_unfold_last (dv : Z → result float) (index : Z) :
  1 ≤ index →
  v64 dv (index - 1) =
    (st ← sum64_state dv (range 1 index); Ok (sum_finish st)) ∧
  v64 dv index =
    (st ← sum64_state dv (range 1 index); x ← dv index;
     Ok (sum_finish (sum_step st x))).
Proof.
  intros Hi. split.
  - unfold v64. destruct (Z.ltb_spec (index - 1) 0) as [?|_]; [lia|].
    destruct (Z.eqb_spec (index - 1) 0) as [E|_].
    + by replace index with 1 by lia.
    + by replace (index - 1 + 1) with index by lia.
  - unfold v64. destruct (Z.ltb_spec index 0) as [?|_]; [lia|].
    destruct (Z.eqb_spec index 0) as [?|_]; [lia|].
    rewrite range_snoc, sum64_state_snoc by done.
    destruct (sum64_state dv (range 1 index)) as [st|]; simpl; [|done].
    by destruct (dv index).
Qed.

Lemma v64_steps_checked (dv : Z → result float) :
  dv = SainteLague_dv64 ∨ dv = SainteLague12_dv64 ∨ dv = SainteLague14_dv64 →
  forallb (v64_step_within_one_ulp dv) (range 1 129) = true.
Proof. intros [->|[->| ->]]; by vm_compute. Qed.

(** C3, as the code has it: for every method that [from_name] returns,
    [v(0)] is 0 and, from index 1 on, [v(index)] is the compensated [sum] of
    [v(index - 1)] carried on with [dv(index)], exceptions included; up to
    index 128 the three of [v(index - 1)], [dv(index)] and [v(index)]
    return, and [v(index)] is [v(index - 1) + dv(index)] or a double next to
    it. *)
Theorem v64_is_running_sum_of_dv64 (name : string) (dv : Z → result float)
    (index : Z) :
  from_name64 name = Ok dv →
  1 ≤ index →
  v64 dv 0 = Ok 0%float ∧
  v64 dv (index - 1) =
    (st ← sum64_state dv (range 1 index); Ok (sum_finish st)) ∧
  v64 dv index =
    (st ← sum64_state dv (range 1 index); x ← dv index;
     Ok (sum_finish (sum_step st x))) ∧
  (index ≤ 128 →
   ∃ a b c, v64 dv (index - 1) = Ok a ∧ dv index = Ok b ∧ v64 dv index = Ok c ∧
            within_one_ulp (a + b)%float c = true).
Proof.
  intros Hname%from_name64_Ok Hi.
  destruct (v64_unfold_last dv index Hi) as [Hprev Hlast].
  split_and!; [done..|]. intros Hle.
  pose proof (v64_steps_checked dv Hname) as Hall.
  rewrite forallb_forall in Hall.
  specialize (Hall index). unfold v64_step_within_one_ulp in Hall.
  destruct (v64 dv (index - 1)) as [a|], (dv index) as [b|],
    (v64 dv index) as [c|];
    try (exfalso; apply diff_false_true, Hall, list_elem_of_In, elem_of_range; lia).
  exists a, b, c. split_and!; [done..|].
  apply Hall, list_elem_of_In, elem_of_range. lia.
Qed.

Lemma v64_is_running_sum_of_dv64_witness :
  let dv := SainteLague_dv64 in
  v64 dv 0 = Ok 0%float ∧
  v64 dv (4 - 1) =
    (st ← sum64_state dv (range 1 4); Ok (sum_finish st)) ∧
  v64 dv 4 =
    (st ← sum64_state dv (range 1 4); x ← dv 4;
     Ok (sum_finish (sum_step st x))) ∧
  (4 ≤ 128 →
   ∃ a b c, v64 dv (4 - 1) = Ok a ∧ dv 4 = Ok b ∧ v64 dv 4 = Ok c ∧
            within_one_ulp (a + b)%float c = true).
Proof.
  intros dv.
  apply (v64_is_running_sum_of_dv64 "sainte_lague" dv 4); [reflexivity|lia].
Defined.

End binary64.

(** C3, as stated, fails in binary64 at index 4 of Sainte-Laguë: [v(4)] is
    [1.6761904761904762] and [v(3) + dv(4)] is [1.676190476190476]. *)
Lemma v64_sainte_lague_4_differs :
  from_name64 "sainte_lague" = Ok SainteLague_dv64 ∧
  v64 SainteLague_dv64 3 = Ok 0x1.8888888888888p+0%float ∧
  SainteLague_dv64 4 = Ok 0x1.2492492492492p-3%float ∧
  v64 SainteLague_dv64 4 = Ok 0x1.ad1ad1ad1ad1bp+0%float ∧
  (0x1.8888888888888p+0 + 0x1.2492492492492p-3)%float = 0x1.ad1ad1ad1ad1ap+0%float ∧
  (0x1.ad1ad1ad1ad1ap+0 =? 0x1.ad1ad1ad1ad1bp+0)%float = false.
Proof. split_and!; by vm_compute. Qed.

(** The conversion of [-1 + 2 * index] to [float] overflows at
    [index = 2 ** 1023]: [dv] raises [OverflowError] there. *)
Example dv64_overflow :
  SainteLague_dv64 (2 ^ 1023) = Err OverflowError ∧
  SainteLague12_dv64 (2 ^ 1023) = Err OverflowError ∧
  SainteLague14_dv64 (2 ^ 1023) = Err OverflowError.
Proof. split_and!; by vm_compute. Qed.
